(** * PCBOT: command binding, command registry and plugin manager

    A shallow embedding of [src/bot.py] and [src/plugins/__init__.py].
    Python modules become Rocq modules of the same name, Python functions
    become Rocq functions of the same name, exceptions become the [Raise]
    branch of a result type, and the module-level mutable objects (the
    [plugins] dictionary, every module's [__commands] attribute, every
    command's [sub_commands] list, the log and the event loop's task queue)
    live in one explicit [State]. *)

From Stdlib Require Import ZArith Lia Ascii String List Bool.
From stdpp Require Import base option list strings gmap fin_maps.

#[local] Set Warnings "-register-all".

Local Open Scope string_scope.
Local Open Scope list_scope.

(** ** Python values, exceptions and built-in operations *)

Module py.

(** Values that travel through the binder: tokens, defaults, and the
    objects returned by annotations. *)
Inductive pyval :=
| PyNone
| PyBool (b : bool)
| PyInt (n : Z)
| PyStr (s : string)
| PyObj (cls : string) (id : string).

Definition is_None (v : pyval) : bool :=
  match v with PyNone => true | _ => false end.

(** [bool(v)] *)
Definition truthy (v : pyval) : bool :=
  match v with
  | PyNone => false
  | PyBool b => b
  | PyInt n => negb (n =? 0)%Z
  | PyStr s => negb (String.eqb s "")
  | PyObj _ _ => true
  end.

Inductive exn_class :=
| Exception
| TypeError
| ValueError
| ImportError
| ModuleNotFoundError
| SyntaxError
| AttributeError
| IndexError
| NameError.

Record exn := mk_exn { exn_cls : exn_class; exn_msg : string }.

(** [isinstance(e, TypeError)] *)
Definition is_TypeError (e : exn) : bool :=
  match exn_cls e with TypeError => true | _ => false end.

(** [isinstance(e, ImportError)]; [ModuleNotFoundError] derives from it. *)
Definition is_ImportError (e : exn) : bool :=
  match exn_cls e with ImportError | ModuleNotFoundError => true | _ => false end.

(** A call either returns or raises. *)
Inductive res (A : Type) :=
| Ok (a : A)
| Raise (e : exn).
Arguments Ok {A} a.
Arguments Raise {A} e.

Definition bind {A B} (r : res A) (k : A -> res B) : res B :=
  match r with Ok a => k a | Raise e => Raise e end.

Definition len {A} (l : list A) : Z := Z.of_nat (length l).

(** [l[i]], with Python's negative indices and [IndexError]. *)
Definition getitem {A} (l : list A) (i : Z) : res A :=
  let j := if (i <? 0)%Z then (i + len l)%Z else i in
  if (j <? 0)%Z then Raise (mk_exn IndexError "list index out of range")
  else match l !! Z.to_nat j with
       | Some x => Ok x
       | None => Raise (mk_exn IndexError "list index out of range")
       end.

(** How a slice bound is normalised: a negative bound counts from the
    end, and every bound is clamped to [0, len]. *)
Definition slice_bound (n i : Z) : Z :=
  if (i <? 0)%Z then Z.max (i + n) 0 else Z.min i n.

(** [l[start:stop]] *)
Definition slice {A} (l : list A) (start stop : Z) : list A :=
  let a := slice_bound (len l) start in
  let b := slice_bound (len l) stop in
  take (Z.to_nat (b - a)) (drop (Z.to_nat a) l).

(** [l[start:]] *)
Definition slice_from {A} (l : list A) (start : Z) : list A :=
  drop (Z.to_nat (slice_bound (len l) start)) l.

(** [x in names] and [names.index(x)] *)
Fixpoint index_of (x : string) (names : list string) : option nat :=
  match names with
  | [] => None
  | y :: ys => if String.eqb x y then Some 0%nat else S <$> index_of x ys
  end.

(** *** Strings.  Characters are code points below 256; the whitespace
    and case tables are those of [str] on that range. *)

Definition isspace (c : ascii) : bool :=
  let n := nat_of_ascii c in
  ((9 <=? n) && (n <=? 13) || (28 <=? n) && (n <=? 32)
   || (n =? 133) || (n =? 160))%nat.

Definition lower_char (c : ascii) : ascii :=
  let n := nat_of_ascii c in
  if ((65 <=? n) && (n <=? 90)
      || (192 <=? n) && (n <=? 222) && negb (n =? 215))%nat
  then ascii_of_nat (n + 32) else c.

(** [s.lower()] *)
Fixpoint lower (s : string) : string :=
  match s with
  | EmptyString => EmptyString
  | String c s' => String (lower_char c) (lower s')
  end.

(** [s.lstrip()] *)
Fixpoint lstrip (s : string) : string :=
  match s with
  | EmptyString => EmptyString
  | String c s' => if isspace c then lstrip s' else s
  end.

(** [s.rstrip()] *)
Fixpoint rstrip (s : string) : string :=
  match s with
  | EmptyString => EmptyString
  | String c s' =>
      match rstrip s' with
      | EmptyString => if isspace c then EmptyString else String c EmptyString
      | r => String c r
      end
  end.

(** [s.strip()] *)
Definition strip (s : string) : string := lstrip (rstrip s).

(** [s.startswith(pre)] *)
Fixpoint startswith (pre s : string) : bool :=
  match pre, s with
  | EmptyString, _ => true
  | String a pre', String b s' => Ascii.eqb a b && startswith pre' s'
  | String _ _, EmptyString => false
  end.

(** [s.endswith(suf)] *)
Fixpoint endswith (suf s : string) : bool :=
  String.eqb s suf
  || match s with
     | EmptyString => false
     | String _ s' => endswith suf s'
     end.

(** [s[:-1]] *)
Fixpoint drop_last (s : string) : string :=
  match s with
  | EmptyString => EmptyString
  | String c EmptyString => EmptyString
  | String c s' => String c (drop_last s')
  end.

(** [s[1:]] *)
Definition drop_first (s : string) : string :=
  match s with
  | EmptyString => EmptyString
  | String _ s' => s'
  end.

Definition newline : ascii := ascii_of_nat 10.
Definition nl : string := String newline EmptyString.

(** [s.split("\n")] *)
Fixpoint split_lines (s : string) : list string :=
  match s with
  | EmptyString => [EmptyString]
  | String c s' =>
      if Ascii.eqb c newline then EmptyString :: split_lines s'
      else match split_lines s' with
           | [] => [String c EmptyString]
           | l :: ls => String c l :: ls
           end
  end.

(** ["\n".join(ls)] *)
Fixpoint join_lines (ls : list string) : string :=
  match ls with
  | [] => EmptyString
  | [l] => l
  | l :: ls' => l +:+ nl +:+ join_lines ls'
  end.

(** [s.rfind(c)], counting positions from [i]: [-1] when [c] is absent. *)
Fixpoint rfind_from (c : ascii) (s : string) (i : Z) : Z :=
  match s with
  | EmptyString => (-1)%Z
  | String a s' =>
      let r := rfind_from c s' (i + 1)%Z in
      if (r <? 0)%Z then (if Ascii.eqb a c then i else (-1)%Z) else r
  end.

Definition rfind (c : ascii) (s : string) : Z := rfind_from c s 0%Z.

(** Whether every character of [s] at a position in [lo, hi) is a dot;
    [i] is the position of the head of [s]. *)
Fixpoint only_dots (s : string) (i lo hi : Z) : bool :=
  match s with
  | EmptyString => true
  | String a s' =>
      (negb ((lo <=? i)%Z && (i <? hi)%Z) || Ascii.eqb a ".")
      && only_dots s' (i + 1)%Z lo hi
  end.

(** [os.path.splitext(p)]: the extension starts at the last dot of the
    last path component, unless only dots come before it there. *)
Definition splitext (p : string) : string * string :=
  let sepIndex := rfind "/" p in
  let dotIndex := rfind "." p in
  if (sepIndex <? dotIndex)%Z
     && negb (only_dots p 0%Z (sepIndex + 1)%Z dotIndex)
  then (String.substring 0 (Z.to_nat dotIndex) p,
        String.substring (Z.to_nat dotIndex)
          (String.length p - Z.to_nat dotIndex) p)
  else (p, EmptyString).

End py.
Export py.

(** ** [inspect]: handler signatures *)

Module inspect.

Inductive param_kind :=
| POSITIONAL_ONLY
| POSITIONAL_OR_KEYWORD
| VAR_POSITIONAL
| KEYWORD_ONLY
| VAR_KEYWORD.

(** The members of [pcbot.utils.Annotate] that [parse_annotation] tests. *)
Inductive Annotate :=
| Content
| LowerContent
| CleanContent
| LowerCleanContent
| Member
| Channel
| Code.

(** Which object an annotation is, as far as the identity tests of the
    binder can tell. *)
Inductive anno_object :=
| DiscordClient
| DiscordMessage
| OtherObject.

(** An annotation is a falsy object (such as [None]), a member of
    [Annotate], or any other object, given by what calling it on a token
    does.  An object that is not callable raises [TypeError] when called;
    so does [inspect.Parameter.empty], the annotation of a parameter
    declared without one. *)
Inductive annotation_t :=
| AnnoFalsy
| AnnoEnum (a : Annotate)
| AnnoObject (o : anno_object) (call : string -> res pyval).

Record parameter := mk_param {
  name : string;
  kind : param_kind;
  annotation : annotation_t;
  default : option pyval   (* [None] is [Parameter.empty] *)
}.

Definition not_callable : string -> res pyval :=
  fun _ => Raise (mk_exn TypeError "object is not callable").

(** The annotation of a parameter declared without one. *)
Definition empty : annotation_t := AnnoObject OtherObject not_callable.

Definition is_object (o : anno_object) (a : annotation_t) : bool :=
  match a, o with
  | AnnoObject DiscordClient _, DiscordClient => true
  | AnnoObject DiscordMessage _, DiscordMessage => true
  | _, _ => false
  end.

Definition is_kind (k k' : param_kind) : bool :=
  match k, k' with
  | POSITIONAL_ONLY, POSITIONAL_ONLY
  | POSITIONAL_OR_KEYWORD, POSITIONAL_OR_KEYWORD
  | VAR_POSITIONAL, VAR_POSITIONAL
  | KEYWORD_ONLY, KEYWORD_ONLY
  | VAR_KEYWORD, VAR_KEYWORD => true
  | _, _ => false
  end.

(** *** How a call binds its arguments to the parameters

    Python binds the positional arguments to the positional parameters
    from the left, the surplus to [*args]; a keyword argument to the
    parameter of its name, or to the parameter with two stars; a parameter
    left without an argument takes its default.  The call raises
    [TypeError] when that cannot be done. *)

Definition positional (p : parameter) : bool :=
  is_kind (kind p) POSITIONAL_ONLY || is_kind (kind p) POSITIONAL_OR_KEYWORD.

Definition takes_keyword (p : parameter) : bool :=
  is_kind (kind p) POSITIONAL_OR_KEYWORD || is_kind (kind p) KEYWORD_ONLY.

Definition has_kind (k : param_kind) (params : list parameter) : bool :=
  existsb (fun p => is_kind (kind p) k) params.

Definition has_default (p : parameter) : bool :=
  match default p with Some _ => true | None => false end.

Definition passed (kw : list string) (p : parameter) : bool :=
  existsb (String.eqb (name p)) kw.

(** The positional parameters against [n] positional arguments: one that
    gets a positional argument may not also be passed by keyword, one that
    gets none needs its keyword or a default. *)
Fixpoint fits_positional (ps : list parameter) (n : nat) (kw : list string)
    : bool :=
  match ps with
  | [] => true
  | p :: rest =>
      match n with
      | S n' =>
          negb (is_kind (kind p) POSITIONAL_OR_KEYWORD && passed kw p)
          && fits_positional rest n' kw
      | O =>
          ((is_kind (kind p) POSITIONAL_OR_KEYWORD && passed kw p)
           || has_default p)
          && fits_positional rest O kw
      end
  end.

(** Whether a call with [n] positional arguments and the keyword arguments
    named [kw] fits [params]. *)
Definition fits (params : list parameter) (n : nat) (kw : list string)
    : bool :=
  let ps := List.filter positional params in
  ((n <=? length ps)%nat || has_kind VAR_POSITIONAL params)
  && fits_positional ps n kw
  && forallb (fun p => negb (is_kind (kind p) KEYWORD_ONLY)
                       || passed kw p || has_default p) params
  && forallb (fun k => existsb (fun p => takes_keyword p
                                         && String.eqb (name p) k) params
                       || has_kind VAR_KEYWORD params) kw.

End inspect.

(** ** [discord]: what the binder reads of a message *)

Module discord.

Record Message := mk_message {
  author : string;
  content : string;
  clean_content : string;
  server : string;
  channel : string
}.

End discord.

(** ** [pcbot.utils]: the helpers this code calls.  Their source is not
    part of the two modules embedded here, so they are parameters. *)

Module utils.

Record Utils := mk_utils {
  command_prefix : string;
  (** [utils.split(text, maxsplit=n)], the quote-aware tokenizer *)
  split : string -> option Z -> list string;
  find_member : string -> string -> res pyval;
  find_channel : string -> string -> res pyval;
  get_formatted_code : string -> res pyval;
  format_exception : exn -> string
}.

End utils.

(** ** [plugins]: [src/plugins/__init__.py] *)

Module plugins.

(** A command handler, as far as [command] and the binder look at it:
    [__name__], [__doc__], the module it was defined in and the parameters
    that [inspect.signature] reports. *)
Record Handler := mk_handler {
  __name__ : string;
  __doc__ : option string;
  __module__ : string;
  signature : list inspect.parameter
}.

(** Every [sub_commands] list is a mutable object shared by all the
    references to its command; [loc] is its address in [heap]. *)
Definition loc := nat.

(** [Command = namedtuple("Command", "name usage description function
    sub_commands parent hidden error pos_check")] *)
Inductive Command := mk_command {
  name : string;
  usage : option string;
  description : string;
  function : Handler;
  sub_commands : loc;
  parent : option Command;
  hidden : bool;
  error : option string;
  pos_check : string -> pyval
}.

(** A plugin's generic-message hook: [on_message(client, message, args)]
    returns a value or raises. *)
Definition hook := discord.Message -> list string -> res pyval.

(** The [__commands] attribute of a module: missing, bound to something
    that is not a list, or bound to a list of commands. *)
Inductive commands_attr :=
| NoAttr
| NotAList
| CmdList (l : list Command).

(** A module object, by the attributes this code reads and writes. *)
Record module_obj := mk_module {
  __commands : commands_attr;
  on_message : option hook;
  cmd_help : option (discord.Message -> string -> res pyval)
}.

Inductive task :=
| HandlerTask (f : Handler) (message : discord.Message)
    (args : list pyval) (kwargs : gmap string pyval)
| PluginMessageTask (f : hook) (message : discord.Message) (args : list string).

Inductive log_level := DEBUG | INFO | WARNING | ERROR.

Inductive event :=
| Log (level : log_level) (text : string)
| SendMessage (channel : string) (text : string)
| CreateTask (t : task).

(** The mutable world: module objects by name, the store of
    [sub_commands] lists, the [plugins] dictionary (plugin name to module)
    and, in order, what was logged, sent and scheduled. *)
Record State := mk_state {
  modules : gmap string module_obj;
  heap : list (list Command);
  plugins : gmap string string;
  trace : list event
}.

(** A computation reads and writes the [State] and returns or raises. *)
Definition M (A : Type) : Type := State -> res A * State.

Definition ret {A} (a : A) : M A := fun st => (Ok a, st).
Definition raise {A} (e : exn) : M A := fun st => (Raise e, st).
Definition bindM {A B} (c : M A) (k : A -> M B) : M B :=
  fun st => match c st with
            | (Ok a, st') => k a st'
            | (Raise e, st') => (Raise e, st')
            end.
Definition emit (ev : event) : M unit :=
  fun st => (Ok tt,
             mk_state (modules st) (heap st) (plugins st)
               (trace st ++ [ev])%list).
Definition get_state : M State := fun st => (Ok st, st).

Declare Scope py_scope.
Delimit Scope py_scope with py.
Notation "x <- c ;; k" := (bindM c (fun x => k))
  (at level 100, c at next level, right associativity) : py_scope.
Notation "c ;;; k" := (bindM c (fun _ => k))
  (at level 100, right associativity) : py_scope.
Notation "x <~ c ;; k" := (py.bind c (fun x => k))
  (at level 100, c at next level, right associativity) : py_scope.

Local Open Scope py_scope.

(** The module object behind a reference.  A reference held by [plugins]
    always has one; a dangling one is reported as an error. *)
Definition get_module (ref : string) : M module_obj :=
  fun st => match modules st !! ref with
            | Some m => (Ok m, st)
            | None => (Raise (mk_exn AttributeError "no such module"), st)
            end.

(** [setattr(plugin, "__commands", commands)] *)
Definition set_commands (ref : string) (commands : list Command) : M unit :=
  fun st => match modules st !! ref with
            | Some m =>
                (Ok tt,
                 mk_state
                   (<[ref := mk_module (CmdList commands) (on_message m) (cmd_help m)]>
                      (modules st))
                   (heap st) (plugins st) (trace st))
            | None =>
                (Raise (mk_exn AttributeError
                          "'NoneType' object has no attribute '__commands'"), st)
            end.

(** [sub_commands=[]]: a new empty list, at the next free address. *)
Definition new_list : M loc :=
  fun st => (Ok (length (heap st)),
             mk_state (modules st) (heap st ++ [[]])%list (plugins st) (trace st)).

(** [l.append(cmd)] on the list stored at [l]. *)
Definition list_append (l : loc) (cmd : Command) : M unit :=
  fun st => (Ok tt,
             mk_state (modules st)
               (alter (fun cs : list Command => (cs ++ [cmd])%list) l (heap st))
               (plugins st) (trace st)).

(** The list stored at [l]. *)
Definition deref (h : list (list Command)) (l : loc) : list Command :=
  h !!! l.

(** The keyword arguments of the [command] decorator; [None] is a key
    that was not passed. *)
Record Options := mk_options {
  opt_name : option string;
  opt_usage : option string;
  opt_description : option string;
  opt_hidden : option bool;
  opt_parent : option Command;
  opt_error : option string;
  opt_pos_check : option (string -> pyval)
}.

Definition no_options : Options :=
  mk_options None None None None None None None.

(** [x or y] on optional strings: [None] and the empty string are falsy. *)
Definition or_else (x : option string) (y : option string) : option string :=
  match x with
  | Some s => if String.eqb s "" then y else x
  | None => y
  end.

(** One turn of the loop that reformats a docstring. *)
Definition format_line (new_desc line : string) : string :=
  if endswith "  /" line then new_desc +:+ (strip (drop_last line) +:+ nl)
  else if String.eqb (strip line) "" then new_desc +:+ (nl +:+ nl)
  else new_desc +:+ (strip line +:+ " ").

(** [for line in description.split("\n"): ...] *)
Definition format_docstring (description : string) : string :=
  fold_left format_line (split_lines description) "".

(** The [description] that [command] stores. *)
Definition command_description (options : Options) (func : Handler) : string :=
  let description :=
    match or_else (or_else (opt_description options) (__doc__ func))
            (Some "Undocumented.") with
    | Some d => d
    | None => ""
    end in
  match __doc__ func with
  | Some doc =>
      if String.eqb description doc then format_docstring description
      else description
  | None => description
  end.

Section manager.
Context (utils : utils.Utils).
(** [importlib.import_module]: running a module registers its commands,
    so it acts on the whole state; it returns the module or raises. *)
Context (import_module : string -> M string).

(** The decorator that [command] returns for its options, applied to
    [func]. *)
Definition command (options : Options) (func : Handler) : M unit :=
  let name := from_option id (__name__ func) (opt_name options) in
  let hidden := from_option id false (opt_hidden options) in
  let parent := opt_parent options in
  let error := opt_error options in
  let pos_check := from_option id PyStr (opt_pos_check options) in
  let description := command_description options func in
  let usage :=
    match parent with
    | None => Some (utils.command_prefix utils +:+ name +:+ " "
                    +:+ from_option id "" (opt_usage options))
    | Some _ => None
    end in
  let plugin := __module__ func in
  st <- get_state ;;
  let attr := from_option __commands NoAttr (modules st !! plugin) in
  match attr with
  | NotAList =>
      raise (mk_exn Exception
               "__commands is reserved for the plugin's commands, and must be of type list")
  | _ =>
      let commands := match attr with CmdList l => l | _ => [] end in
      if existsb (fun cmd => String.eqb (plugins.name cmd) name) commands
      then raise (mk_exn Exception
                    "You can't assign two commands with the same name")
      else
        subs <- new_list ;;
        let cmd := mk_command name usage description func subs parent
                     hidden error pos_check in
        commands' <- match parent with
                     | Some p => list_append (sub_commands p) cmd ;;; ret commands
                     | None => ret (commands ++ [cmd])%list
                     end ;;
        set_commands plugin commands' ;;;
        emit (Log DEBUG
                ("Registered "
                 +:+ match parent with Some _ => "subcommand" | None => "command" end
                 +:+ " " +:+ name +:+ " from plugin " +:+ plugin))
  end.

Definition get_plugin (name : string) : M (option string) :=
  fun st => (Ok (plugins st !! name), st).

Definition all_keys : M (list string) :=
  fun st => (Ok (map_to_list (plugins st)).*1, st).

Definition all_values : M (list string) :=
  fun st => (Ok (map_to_list (plugins st)).*2, st).

(** [plugins[name] = plugin] *)
Definition plugins_setitem (name plugin : string) : M unit :=
  fun st => (Ok tt,
             mk_state (modules st) (heap st) (<[name := plugin]> (plugins st))
               (trace st)).

(** [del plugins[name]] *)
Definition plugins_delitem (name : string) : M unit :=
  fun st => (Ok tt,
             mk_state (modules st) (heap st) (delete name (plugins st))
               (trace st)).

Definition load_plugin (name : string) (package : string) : M bool :=
  if negb (startswith "__" name) || negb (endswith "__" name) then
    fun st =>
      match import_module (package +:+ "." +:+ name) st with
      | (Raise e, st') =>
          if is_ImportError e then
            (emit (Log WARNING ("COULD NOT LOAD PLUGIN " +:+ name +:+ nl
                                +:+ utils.format_exception utils e)) ;;;
             ret false) st'
          else (Raise e, st')
      | (Ok plugin, st') =>
          (plugins_setitem name plugin ;;;
           emit (Log DEBUG ("LOADED PLUGIN " +:+ name)) ;;;
           ret true) st'
      end
  else ret false.

Definition unload_plugin (name : string) : M unit :=
  st <- get_state ;;
  if bool_decide (is_Some (plugins st !! name)) then
    plugins_delitem name ;;;
    emit (Log DEBUG ("UNLOADED PLUGIN " +:+ name))
  else ret tt.

(** [importlib.reload]: runs the module again and returns it. *)
Context (reload_module : string -> M string).
(** The [save] attribute of a module, when it has one: called with the
    [plugins] module, it returns or raises.  What it writes is outside
    the state. *)
Context (save_of : string -> option (State -> res pyval)).

(** [delattr(plugins[name], "__commands")] *)
Definition del_commands (ref : string) : M unit :=
  fun st => match modules st !! ref with
            | Some m =>
                (Ok tt,
                 mk_state
                   (<[ref := mk_module NoAttr (on_message m) (cmd_help m)]>
                      (modules st))
                   (heap st) (plugins st) (trace st))
            | None =>
                (Raise (mk_exn AttributeError "__commands"), st)
            end.

Definition reload_plugin (name : string) : M unit :=
  st <- get_state ;;
  match plugins st !! name with
  | Some ref =>
      m <- get_module ref ;;
      match __commands m with
      | NoAttr => ret tt
      | _ => del_commands ref
      end ;;;
      plugin <- reload_module ref ;;
      plugins_setitem name plugin ;;;
      emit (Log DEBUG ("RELOADED PLUGIN " +:+ name))
  | None => ret tt
  end.

(** [save_plugin]; every exception of the model derives from
    [Exception], so the last handler catches what the first lets
    through. *)
Definition save_plugin (name : string) : M unit :=
  st <- get_state ;;
  match plugins st !! name with
  | Some plugin =>
      match save_of plugin with
      | Some save =>
          match save st with
          | Ok _ => ret tt
          | Raise e =>
              if is_TypeError e then ret tt
              else emit (Log ERROR
                           ("An error occurred when saving plugin " +:+ name
                            +:+ nl +:+ utils.format_exception utils e))
          end
      | None => ret tt
      end
  | None => ret tt
  end.

(** [for name in ...: yield from save_plugin(name)] *)
Fixpoint save_each (names : list string) : M unit :=
  match names with
  | [] => ret tt
  | name :: rest => save_plugin name ;;; save_each rest
  end.

Definition save_plugins : M unit :=
  names <- all_keys ;;
  save_each names.

(** The loop of [load_plugins] over the entries of [plugins/]. *)
Fixpoint load_each (entries : list string) : M unit :=
  match entries with
  | [] => ret tt
  | plugin :: rest =>
      let name := fst (splitext plugin) in
      (if negb (endswith "lib" name)
       then _ <- load_plugin name "plugins" ;; ret tt
       else ret tt) ;;;
      load_each rest
  end.

(** [load_plugins], given what [os.listdir("plugins/")] returns once the
    directory exists. *)
Definition load_plugins (listdir : list string) : M unit :=
  load_each listdir.

End manager.
End plugins.

(** ** [bot]: the parameter binder of [src/bot.py] *)

Module bot.
Import inspect discord plugins utils.
Local Open Scope py_scope.

Section binder.
Context (utils : Utils).

(** [utils.split(text, maxsplit=index)[-1]] *)
Definition content_from (text : string) (index : Z) : res string :=
  getitem (split utils text (Some index)) (-1).

Definition annotation_error : exn :=
  mk_exn TypeError
    "Command parameter annotation must be either pcbot.utils.Annotate or a function".

Definition parse_annotation (param : parameter) (arg : string) (index : Z)
    (message : Message) : res pyval :=
  match annotation param with
  | AnnoFalsy => Ok (PyStr arg)
  | AnnoEnum Content =>
      s <~ content_from (content message) index ;; Ok (PyStr s)
  | AnnoEnum LowerContent =>
      s <~ content_from (content message) index ;; Ok (PyStr (lower s))
  | AnnoEnum CleanContent =>
      s <~ content_from (clean_content message) index ;; Ok (PyStr s)
  | AnnoEnum LowerCleanContent =>
      s <~ content_from (clean_content message) index ;; Ok (PyStr (lower s))
  | AnnoEnum Member => find_member utils (server message) arg
  | AnnoEnum Channel => find_channel utils (server message) arg
  | AnnoEnum Code =>
      code <~ content_from (content message) index ;;
      get_formatted_code utils code
  | AnnoObject _ anno =>
      match anno arg with
      | Ok v => Ok v
      | Raise e => if is_TypeError e then Raise annotation_error else Ok PyNone
      end
  end.

(** The local variables of [parse_command_args] that the loop updates. *)
Record locals := mk_locals {
  args : list pyval;
  kwargs : gmap string pyval;
  index : Z;
  has_pos : bool;
  num_pos_args : Z
}.

Definition set_index (i : Z) (s : locals) : locals :=
  mk_locals (args s) (kwargs s) i (has_pos s) (num_pos_args s).
Definition append_arg (v : pyval) (s : locals) : locals :=
  mk_locals (args s ++ [v]) (kwargs s) (index s) (has_pos s) (num_pos_args s).
Definition set_kwarg (k : string) (v : pyval) (s : locals) : locals :=
  mk_locals (args s) (<[k := v]> (kwargs s)) (index s) (has_pos s) (num_pos_args s).

(** How one turn of the loop over the parameters ends: it falls through
    to the next parameter, breaks out of the loop, returns from the
    function, or raises. *)
Inductive flow :=
| Next (s : locals)
| Break (s : locals)
| Return (r : list pyval * gmap string pyval * bool)
| Throw (e : exn).

(** The inner loop of the [VAR_POSITIONAL] branch, over the sliced
    tokens: [acc] is [args], [n] is [num_pos_args]. *)
Fixpoint var_positional_loop (param : parameter) (toks : list string)
    (index : Z) (message : Message) (acc : list pyval) (n : Z)
    : res (list pyval * Z) :=
  match toks with
  | [] => Ok (acc, n)
  | cmd_arg :: rest =>
      match parse_annotation param cmd_arg index message with
      | Raise e => Raise e
      | Ok tmp_arg =>
          if is_None tmp_arg
          then var_positional_loop param rest index message acc n
          else var_positional_loop param rest index message
                 (acc ++ [tmp_arg]) (n + 1)%Z
      end
  end.

(** The branch taken when no token is left for the parameter. *)
Definition no_argument (param : parameter) (s : locals) : flow :=
  match default param with
  | Some d =>
      match kind param with
      | POSITIONAL_OR_KEYWORD => Next (append_arg d s)
      | KEYWORD_ONLY => Next (set_kwarg (inspect.name param) d s)
      | _ => Next s
      end
  | None => Break (set_index (index s - 1)%Z s)
  end.

(** The body of [for arg, param in signature.parameters.items()]. *)
Definition loop_body (num_kwargs : Z) (cmd_args : list string)
    (start_index : Z) (message : Message) (s0 : locals) (param : parameter)
    : flow :=
  let s := set_index (index s0 + 1)%Z s0 in
  if (index s =? 0)%Z then
    if is_object DiscordClient (annotation param) then Next s
    else Throw (mk_exn Exception
                  "First command parameter must be of type discord.Client")
  else if (index s =? 1)%Z then
    if is_object DiscordMessage (annotation param) then Next s
    else Throw (mk_exn Exception
                  "Second command parameter must be of type discord.Message")
  else if (index s <=? len cmd_args)%Z then
    match getitem cmd_args (index s - 1)%Z with
    | Raise e => Throw e
    | Ok cmd_arg =>
        match kind param with
        | POSITIONAL_OR_KEYWORD =>
            match parse_annotation param cmd_arg
                    (index s - 1 + start_index)%Z message with
            | Raise e => Throw e
            | Ok tmp_arg =>
                if negb (is_None tmp_arg) then Next (append_arg tmp_arg s)
                else match default param with
                     | Some d => Next (append_arg d s)
                     | None => Return (args s, kwargs s, false)
                     end
            end
        | KEYWORD_ONLY =>
            match parse_annotation param cmd_arg
                    (index s - 1 + start_index)%Z message with
            | Raise e => Throw e
            | Ok tmp_arg =>
                if negb (is_None tmp_arg)
                then Next (set_kwarg (inspect.name param) tmp_arg s)
                else match default param with
                     | Some d => Next (set_kwarg (inspect.name param) d s)
                     | None => Return (args s, kwargs s, false)
                     end
            end
        | VAR_POSITIONAL =>
            match var_positional_loop param
                    (slice cmd_args (index s - 1)%Z (- num_kwargs)%Z)
                    (index s + start_index)%Z message
                    (args s) (num_pos_args s) with
            | Raise e => Throw e
            | Ok (args', n) =>
                Next (mk_locals args' (kwargs s)
                        (index s + (if (n =? 0)%Z then 0 else n - 1))%Z
                        true n)
            end
        | _ => Next s
        end
    end
  else no_argument param s.

Fixpoint for_parameters (num_kwargs : Z) (cmd_args : list string)
    (start_index : Z) (message : Message) (s : locals)
    (params : list parameter) : flow :=
  match params with
  | [] => Next s
  | param :: rest =>
      match loop_body num_kwargs cmd_args start_index message s param with
      | Next s' => for_parameters num_kwargs cmd_args start_index message s' rest
      | stop => stop
      end
  end.

(** [sum(1 for param in ... if param.kind is param.KEYWORD_ONLY)] *)
Definition count_keyword_only (params : list parameter) : Z :=
  len (List.filter (fun p => is_kind (kind p) KEYWORD_ONLY) params).

(** What follows the loop: the completeness test. *)
Definition after_loop (params : list parameter) (s : locals)
    : list pyval * gmap string pyval * bool :=
  let num_args := (len params - 2)%Z in
  let num_args :=
    if has_pos s
    then (num_args - (if (num_pos_args s =? 0)%Z then 1 else 0))%Z
    else num_args in
  let num_given := (index s - 1)%Z in
  (args s, kwargs s, (num_given =? num_args)%Z).

(** The values of the locals before the loop. *)
Definition init_locals : locals := mk_locals [] ∅ (-1)%Z false 0%Z.

(** What the function returns, by how the loop ended. *)
Definition finish (params : list parameter) (f : flow)
    : res (list pyval * gmap string pyval * bool) :=
  match f with
  | Next s | Break s => Ok (after_loop params s)
  | Return r => Ok r
  | Throw e => Raise e
  end.

Definition parse_command_args (command : Command) (cmd_args : list string)
    (start_index : Z) (message : Message)
    : res (list pyval * gmap string pyval * bool) :=
  let params := signature (function command) in
  let num_kwargs := count_keyword_only params in
  finish params
    (for_parameters num_kwargs cmd_args start_index message init_locals params).

End binder.

(** Calling a handler that is a generator function, as the handlers of
    this repository are: the arguments ([client], [message], [*args] and
    [**kwargs]) are bound to its parameters at the call, which raises
    [TypeError] when they do not fit; the body only runs in the task. *)
Definition call_generator (f : Handler) (message : Message)
    (args : list pyval) (kwargs : gmap string pyval) : res unit :=
  if fits (signature f) (2 + length args) (map fst (map_to_list kwargs))
  then Ok tt
  else Raise (mk_exn TypeError "the arguments do not fit the parameters").

Section dispatch.
Context (utils : Utils).
(** [utils.get_command(plugin, name)]; the spec calls it [lookup]: the
    top-level command of that name in the plugin, or nothing. *)
Context (get_command : module_obj -> string -> option Command).
(** [client.user], the account the bot runs as. *)
Context (client_user : string).
(** [command.function(client, message, *args, **kwargs)]: calling the
    handler gives the coroutine that becomes the task, or raises.  What it
    does is up to the handler object: [call_generator] is the case of a
    generator function. *)
Context (call : Handler -> Message -> list pyval -> gmap string pyval
                -> res unit).
(** What [{elapsed:.6f}] renders of [(time() - start_time) * 1000]; it
    depends on the clock, read at the moment the state is the given one. *)
Context (time_elapsed : State -> string).

Definition log_message (message : Message) (prefix : string) : M unit :=
  emit (Log INFO (prefix +:+ "@" +:+ author message +:+ " -> "
                  +:+ content message)).

(** The task body that runs a plugin's [on_message]. *)
Definition on_plugin_message (function : hook) (message : Message)
    (args : list string) : M unit :=
  match function message args with
  | Raise e => raise e
  | Ok success =>
      if truthy success then log_message message "... " else ret tt
  end.

(** The loop of [get_sub_command] over [cmd_args[1:]].  The index of a
    name among [names] is a position of [subs], so the inner [None] branch
    is never taken. *)
Fixpoint sub_command_loop (h : list (list Command)) (command : Command)
    (new_index : Z) (toks : list string) : Command * Z :=
  match toks with
  | [] => (command, new_index)
  | arg :: rest =>
      let subs := deref h (sub_commands command) in
      let names := map plugins.name subs in
      match index_of arg names with
      | Some i =>
          match subs !! i with
          | Some sub => sub_command_loop h sub (new_index + 1)%Z rest
          | None => sub_command_loop h command new_index rest
          end
      | None => sub_command_loop h command new_index rest
      end
  end.

Definition get_sub_command (h : list (list Command)) (command : Command)
    (cmd_args : list string) : Command * list string * Z :=
  let '(command, new_index) :=
    sub_command_loop h command 0%Z (slice_from cmd_args 1) in
  (command, slice_from cmd_args new_index, new_index).

(** [plugins.get_plugin("builtin").cmd_help(client, message, cmd)] *)
Definition builtin_cmd_help (message : Message) (cmd : string) : M unit :=
  st <- get_state ;;
  match plugins st !! "builtin" with
  | None =>
      raise (mk_exn AttributeError
               "'NoneType' object has no attribute 'cmd_help'")
  | Some ref =>
      m <- get_module ref ;;
      match cmd_help m with
      | None =>
          raise (mk_exn AttributeError "module has no attribute 'cmd_help'")
      | Some help =>
          match help message cmd with
          | Raise e => raise e
          | Ok _ => ret tt
          end
      end
  end.

Definition parse_command (command : Command) (cmd : string)
    (cmd_args : list string) (message : Message)
    : M (option Command * list pyval * gmap string pyval) :=
  st <- get_state ;;
  let '(command, cmd_args, start_index) :=
    get_sub_command (heap st) command cmd_args in
  match parse_command_args utils command cmd_args start_index message with
  | Raise e => raise e
  | Ok (args, kwargs, complete) =>
      if negb complete then
        log_message message "" ;;;
        match or_else (error command) None with
        | Some text => emit (SendMessage (channel message) text)
        | None => builtin_cmd_help message cmd
        end ;;;
        ret (None, args, kwargs)
      else ret (Some command, args, kwargs)
  end.

(** The body of [for plugin in plugins.all_values()]. *)
Definition handle_plugin (cmd : string) (cmd_args : list string)
    (message : Message) (ref : string) : M unit :=
  plugin <- get_module ref ;;
  (if negb (String.eqb cmd "") then
     match get_command plugin cmd with
     | Some command =>
         r <- parse_command command cmd cmd_args message ;;
         match r with
         | (Some command, args, kwargs) =>
             log_message message "" ;;;
             (* the argument of [create_task] is evaluated first *)
             match call (function command) message args kwargs with
             | Raise e => raise e
             | Ok _ =>
                 emit (CreateTask
                         (HandlerTask (function command) message args kwargs)) ;;;
                 moment <- get_state ;;
                 emit (Log DEBUG ("Time spent parsing comand: "
                                  +:+ time_elapsed moment))
             end
         | (None, _, _) => ret tt
         end
     | None => ret tt
     end
   else ret tt) ;;;
  match on_message plugin with
  | Some hook =>
      emit (CreateTask (PluginMessageTask hook message cmd_args))
  | None => ret tt
  end.

Fixpoint for_plugins (cmd : string) (cmd_args : list string)
    (message : Message) (refs : list string) : M unit :=
  match refs with
  | [] => ret tt
  | ref :: rest =>
      handle_plugin cmd cmd_args message ref ;;;
      for_plugins cmd cmd_args message rest
  end.

Definition on_message (message : Message) : M unit :=
  if String.eqb (author message) client_user then ret tt
  else if String.eqb (content message) "" then ret tt
  else
    let cmd_args := split utils (content message) None in
    match getitem cmd_args 0 with
    | Raise e => raise e
    | Ok first =>
        let cmd :=
          if startswith (command_prefix utils) first
             && (1 <? String.length first)%nat
          then drop_first first else "" in
        values <- all_values ;;
        for_plugins cmd cmd_args message values
    end.

End dispatch.
End bot.

(** ** The specification's notions, in its own words *)

Module spec.
Import inspect discord plugins utils bot.

(** The binder's result is an Invocation marked complete. *)
Definition marked_complete
    (r : res (list pyval * gmap string pyval * bool)) : Prop :=
  exists args kwargs, r = Ok (args, kwargs, true).

(** The annotation of [param] yields a value for [token]. *)
Definition yields_value (utils : Utils) (param : parameter) (token : string)
    (index : Z) (message : Message) : Prop :=
  exists v, parse_annotation utils param token index message = Ok v
            /\ is_None v = false.

(** Each parameter's annotation yields a value for its token: the [i]-th
    parameter goes with the [i]-th token after the [skip] first ones, and
    the binder passes the annotation that token's position in the
    message. *)
Definition each_yields (utils : Utils) (params : list parameter)
    (tokens : list string) (skip : nat) (start_index : Z) (message : Message)
    : Prop :=
  forall (i : nat) param token,
    params !! i = Some param ->
    tokens !! (skip + i)%nat = Some token ->
    yields_value utils param token (Z.of_nat (skip + i) + 1 + start_index)
      message.

(** A required positional parameter: positional, and without default. *)
Definition required_positional (p : parameter) : Prop :=
  kind p = POSITIONAL_OR_KEYWORD /\ default p = None.

(** The sub-command of [command] that [token] names: the first of its
    sub-commands with that name. *)
Definition named_sub_command (h : list (list Command)) (command : Command)
    (token : string) : option Command :=
  List.find (fun sub => String.eqb (plugins.name sub) token)
    (deref h (sub_commands command)).

(** [resolves h command tokens found n]: scanning [tokens] in order from
    [command], descending whenever a token names a sub-command of the
    current command and passing over every other token, ends at [found]
    after [n] descents. *)
Inductive resolves (h : list (list Command))
    : Command -> list string -> Command -> nat -> Prop :=
| resolves_done command :
    resolves h command [] command 0
| resolves_pass command token rest found n :
    named_sub_command h command token = None ->
    resolves h command rest found n ->
    resolves h command (token :: rest) found n
| resolves_descend command token sub rest found n :
    named_sub_command h command token = Some sub ->
    resolves h sub rest found n ->
    resolves h command (token :: rest) found (S n).

(** The continuation marker of a docstring line: two spaces and a slash
    at its end. *)
Definition marker : string := "  /".

(** The line without its marker, when it ends with one. *)
Fixpoint before_marker (line : string) : option string :=
  if String.eqb line marker then Some EmptyString
  else match line with
       | EmptyString => None
       | String c rest => String c <$> before_marker rest
       end.

(** A blank line holds nothing but white space. *)
Fixpoint blank (line : string) : bool :=
  match line with
  | EmptyString => true
  | String c rest => isspace c && blank rest
  end.

(** A line holds no line break. *)
Fixpoint single_line (line : string) : bool :=
  match line with
  | EmptyString => true
  | String c rest => negb (Ascii.eqb c newline) && single_line rest
  end.

(** How one docstring line is rendered: a line ending with the marker
    keeps a forced line break and loses the marker, a blank line becomes a
    paragraph break, any other line is followed by a single space. *)
Definition render_line (line : string) : string :=
  match before_marker line with
  | Some text => strip text +:+ nl
  | None => if blank line then nl +:+ nl else strip line +:+ " "
  end.

(** The rendering of a text, line by line. *)
Fixpoint render_lines (lines : list string) : string :=
  match lines with
  | [] => EmptyString
  | line :: rest => render_line line +:+ render_lines rest
  end.

(** [st'] is [st] with more events: nothing else has changed. *)
Definition only_logs (st st' : State) : Prop :=
  modules st' = modules st /\ heap st' = heap st /\ plugins st' = plugins st
  /\ exists events, trace st' = trace st ++ events.

(** A computation that does nothing to the state but add events. *)
Definition appends_only {A} (c : M A) : Prop :=
  forall st r st', c st = (r, st') -> only_logs st st'.

(** Every entry of the [plugins] dictionary refers to a module object. *)
Definition plugins_loaded (st : State) : Prop :=
  forall name ref, plugins st !! name = Some ref -> is_Some (modules st !! ref).

End spec.

(** ** The [plugin] command group of [src/pcbot/builtin.py], and a few
    handlers, as concrete inputs *)

Module example.
Import inspect discord plugins utils bot.

(** The words of a text, cut at every white-space character. *)
Fixpoint words (s : string) : list string :=
  match s with
  | EmptyString => []
  | String c s' =>
      if isspace c then EmptyString :: words s'
      else match words s' with
           | [] => [String c EmptyString]
           | w :: ws => String c w :: ws
           end
  end.

(** Modelled from the spec: [utils.split], whose source is missing.  The
    spec's Tokenizer splits the raw text into string tokens; the examples
    have no quotes and no [maxsplit], so white space alone separates. *)
Definition split_words (s : string) (maxsplit : option Z) : list string :=
  List.filter (fun w => negb (String.eqb w "")) (words s).

Definition the_utils : Utils :=
  mk_utils "!" split_words
    (fun _ _ => Ok PyNone) (fun _ _ => Ok PyNone)
    (fun code => Ok (PyStr code)) exn_msg.

(** Modelled from the spec: [utils.get_command], whose source is missing.
    The spec's [lookup(plugin, name)] returns the top-level Command with
    that name or nothing. *)
Definition lookup (plugin : module_obj) (name : string) : option Command :=
  match __commands plugin with
  | CmdList l => List.find (fun cmd => String.eqb (plugins.name cmd) name) l
  | _ => None
  end.

Definition client_param : parameter :=
  mk_param "client" POSITIONAL_OR_KEYWORD
    (AnnoObject DiscordClient not_callable) None.
Definition message_param : parameter :=
  mk_param "message" POSITIONAL_OR_KEYWORD
    (AnnoObject DiscordMessage not_callable) None.

(** The annotations [str], [str.lower] and [int]; this [int] reads the
    literal [1] and raises [ValueError] on any other token, as [int] does
    on a word. *)
Definition str : annotation_t :=
  AnnoObject OtherObject (fun s => Ok (PyStr s)).
Definition str_lower : annotation_t :=
  AnnoObject OtherObject (fun s => Ok (PyStr (lower s))).
Definition int : annotation_t :=
  AnnoObject OtherObject
    (fun s => if String.eqb s "1" then Ok (PyInt 1)
              else Raise (mk_exn ValueError "invalid literal for int()")).
(** An annotation that signals a wrong type. *)
Definition picky : annotation_t :=
  AnnoObject OtherObject (fun _ => Raise (mk_exn TypeError "wrong type")).

Definition handler (name : string) (doc : option string)
    (params : list parameter) : Handler :=
  mk_handler name doc "pcbot.builtin" (client_param :: message_param :: params).

(** [def plugin_(client, message)] and its sub-commands. *)
Definition plugin_ : Handler := handler "plugin_" (Some " Manage plugins. ") [].
Definition reload : Handler :=
  handler "reload" (Some " Reloads a plugin. ")
    [mk_param "name" POSITIONAL_OR_KEYWORD str_lower (Some PyNone)].
Definition load : Handler :=
  handler "load" (Some " Loads a plugin. ")
    [mk_param "name" POSITIONAL_OR_KEYWORD str_lower None].
(** A second handler registered under the name [reload]. *)
Definition reload_again : Handler :=
  handler "reload" (Some " Reloads everything. ") [].
(** [def say(client, message, *words: str)] *)
Definition say : Handler :=
  handler "say" None [mk_param "words" VAR_POSITIONAL str None].
(** [def count(client, message, n: int)] *)
Definition count : Handler :=
  handler "count" None [mk_param "n" POSITIONAL_OR_KEYWORD int None].
(** [def check(client, message, x: picky)] *)
Definition check : Handler :=
  handler "check" None [mk_param "x" POSITIONAL_OR_KEYWORD picky None].
(** [def tag(client, message, *words: str, flag: str=None)] *)
Definition tag : Handler :=
  handler "tag" None
    [mk_param "words" VAR_POSITIONAL str None;
     mk_param "flag" KEYWORD_ONLY str (Some PyNone)].
(** [def tally(client, message, *numbers: int, flag: str=None)] *)
Definition tally : Handler :=
  handler "tally" None
    [mk_param "numbers" VAR_POSITIONAL int None;
     mk_param "flag" KEYWORD_ONLY str (Some PyNone)].
(** [def echo(client, message, text: str)] *)
Definition echo : Handler :=
  handler "echo" None [mk_param "text" POSITIONAL_OR_KEYWORD str None].

Definition bare (f : Handler) : Command :=
  mk_command (__name__ f) None "" f 0 None false None PyStr.

Definition run {A} (c : M A) (st : State) : State := snd (c st).

(** The module [pcbot.builtin] before any of its decorators has run. *)
Definition fresh_module : module_obj := mk_module NoAttr None None.
Definition st0 : State :=
  mk_state {["pcbot.builtin" := fresh_module]} [] ∅ [].

Definition named (name : string) : Options :=
  mk_options (Some name) None None None None None None.
Definition under (parent : Command) : Options :=
  mk_options None None None None (Some parent) None None.

(** [@plugins.command(name="plugin", ...)] *)
Definition st1 : State := run (command the_utils (named "plugin") plugin_) st0.
Definition plugin_command : Command :=
  mk_command "plugin" (Some "!plugin ") "Manage plugins. " plugin_ 0 None
    false None PyStr.
(** [@plugin_.command()] on [reload], then on [load] *)
Definition st2 : State :=
  run (command the_utils (under plugin_command) reload) st1.
Definition st3 : State :=
  run (command the_utils (under plugin_command) load) st2.
Definition reload_command : Command :=
  mk_command "reload" None "Reloads a plugin. " reload 1
    (Some plugin_command) false None PyStr.

(** A plugin that only has a generic-message hook. *)
Definition greeter_hook : hook := fun _ _ => Ok (PyBool true).
Definition greeter : module_obj := mk_module NoAttr (Some greeter_hook) None.
Definition st_greeter : State :=
  mk_state {["plugins.greeter" := greeter]} [] {["greeter" := "plugins.greeter"]} [].

Definition message (author text : string) : Message :=
  mk_message author text text "server" "general".

(** [load] as [builtin.py] registers it, with its error text. *)
Definition load_command : Command :=
  mk_command "load" None "Loads a plugin. " load 2 (Some plugin_command)
    false (Some "You need to specify the name of the plugin to load.") PyStr.

(** A plugin with the command [echo] and no hook. *)
Definition st_echo : State :=
  mk_state
    {["plugins.echo" := mk_module (CmdList [bare echo]) None None]}
    [[]] {["echo" := "plugins.echo"]} [].

(** [pcbot.builtin] with its commands registered and loaded as the
    plugin [builtin]. *)
Definition st_builtin : State :=
  mk_state (modules st3) (heap st3) {["builtin" := "pcbot.builtin"]} (trace st3).

(** The greeter's module imported, and no plugin loaded. *)
Definition st_imported : State :=
  mk_state {["plugins.greeter" := greeter]} [] ∅ [].

(** An importer that finds every module already imported. *)
Definition import_found : string -> M string := fun name => ret name.

(** A plugin with the command [check] and a generic-message hook. *)
Definition st_checker : State :=
  mk_state
    {["plugins.checker" := mk_module (CmdList [bare check]) (Some greeter_hook) None]}
    [[]] {["checker" := "plugins.checker"]} [].

(** An importer that finds no module, and one that finds a module whose
    source does not parse. *)
Definition import_missing : string -> M string :=
  fun name => raise (mk_exn ModuleNotFoundError ("No module named " +:+ name)).
Definition import_malformed : string -> M string :=
  fun name => raise (mk_exn SyntaxError "invalid syntax").

(** Two loaded plugins, and [save] functions that all fail. *)
Definition st_two : State :=
  mk_state
    {["plugins.greeter" := greeter;
      "plugins.echo" := mk_module (CmdList [bare echo]) None None]}
    [[]] {["greeter" := "plugins.greeter"; "echo" := "plugins.echo"]} [].
Definition save_fails : string -> option (State -> res pyval) :=
  fun _ => Some (fun _ => Raise (mk_exn Exception "disk full")).

(** A clock on which no time passes. *)
Definition clock : State -> string := fun _ => "0.000000".

(** [def pick(client, message, *rest: str, flag: str)], in a plugin that
    also has a generic-message hook. *)
Definition pick : Handler :=
  handler "pick" None
    [mk_param "rest" VAR_POSITIONAL str None;
     mk_param "flag" KEYWORD_ONLY str None].
Definition st_picker : State :=
  mk_state
    {["plugins.picker" := mk_module (CmdList [bare pick]) (Some greeter_hook) None]}
    [[]] {["picker" := "plugins.picker"]} [].

End example.

(** ** Notions used to state what the rest of the code does *)

Module notions.
Import inspect discord plugins utils bot.

(** The top-level commands of the module behind [ref]. *)
Definition top_level (st : State) (ref : string) : list Command :=
  match modules st !! ref with
  | Some m => match __commands m with CmdList l => l | _ => [] end
  | None => []
  end.

(** What [load_plugins] and [load_plugin] together let through: a name
    that does not end with [lib] and is not of the form [__x__]. *)
Definition loadable (name : string) : bool :=
  negb (endswith "lib" name)
  && (negb (startswith "__" name) || negb (endswith "__" name)).

(** The task that [on_message] schedules for the plugin behind [ref], when
    it has a generic-message hook. *)
Definition hook_task (st : State) (message : Message)
    (cmd_args : list string) (ref : string) : option event :=
  match modules st !! ref with
  | Some m =>
      match plugins.on_message m with
      | Some hook => Some (CreateTask (PluginMessageTask hook message cmd_args))
      | None => None
      end
  | None => None
  end.

(** The line that [save_plugin] logs for a failed save, when it logs
    one. *)
Definition save_error (utils : Utils) (save_of : string -> option (State -> res pyval))
    (st : State) (name : string) : option event :=
  match plugins st !! name with
  | Some plugin =>
      match save_of plugin with
      | Some save =>
          match save st with
          | Raise e =>
              if is_TypeError e then None
              else Some (Log ERROR
                           ("An error occurred when saving plugin " +:+ name
                            +:+ nl +:+ format_exception utils e))
          | Ok _ => None
          end
      | None => None
      end
  | None => None
  end.

(** The state in which the module behind [ref] has lost its [__commands]
    attribute. *)
Definition without_commands (st : State) (ref : string) : State :=
  match modules st !! ref with
  | Some m =>
      mk_state
        (<[ref := mk_module NoAttr (plugins.on_message m) (cmd_help m)]>
           (modules st))
        (heap st) (plugins.plugins st) (trace st)
  | None => st
  end.

(** Running a module whose body is a sequence of decorated handlers: the
    decorators run in order. *)
Fixpoint register_all (utils : Utils) (body : list (Options * Handler))
    : M unit :=
  match body with
  | [] => ret tt
  | (options, func) :: rest =>
      bindM (command utils options func) (fun _ => register_all utils rest)
  end.

(** The name under which [command] registers [func]. *)
Definition registered_name (reg : Options * Handler) : string :=
  from_option id (__name__ (snd reg)) (opt_name (fst reg)).

(** The annotation of [p] returns, on every token and at every position:
    it does not raise. *)
Definition returns (utils : Utils) (message : Message) (p : parameter)
    : Prop :=
  forall t i, exists v, parse_annotation utils p t i message = Ok v.

(** The exceptions with which the binder refuses a signature. *)
Definition signature_error (e : exn) : Prop :=
  e = mk_exn Exception "First command parameter must be of type discord.Client"
  \/ e = mk_exn Exception
           "Second command parameter must be of type discord.Message".

End notions.

(** * Properties *)

Import inspect discord plugins utils bot spec notions.
Local Open Scope py_scope.

(** ** Python lists and slices *)

Lemma len_nonneg {A} (l : list A) : (0 <= len l)%Z.
Proof. unfold len. lia. Qed.

Lemma len_cons {A} (x : A) (l : list A) : len (x :: l) = (len l + 1)%Z.
Proof. unfold len. cbn [length]. lia. Qed.

Lemma getitem_nat {A} (l : list A) (i : nat) (x : A) :
  l !! i = Some x -> getitem l (Z.of_nat i) = Ok x.
Proof.
  intros H. unfold getitem.
  destruct (Z.ltb_spec (Z.of_nat i) 0) as [Hneg|_]; [lia|].
  destruct (Z.ltb_spec (Z.of_nat i) 0) as [Hneg|_]; [lia|].
  rewrite Nat2Z.id, H. reflexivity.
Qed.

Lemma slice_from_nat {A} (l : list A) (n : nat) :
  (n <= length l)%nat -> slice_from l (Z.of_nat n) = drop n l.
Proof.
  intros H. unfold slice_from, slice_bound, len.
  destruct (Z.ltb_spec (Z.of_nat n) 0) as [Hneg|_]; [lia|].
  rewrite Z.min_l by lia. rewrite Nat2Z.id. reflexivity.
Qed.

Lemma slice_from_1 {A} (l : list A) : slice_from l 1 = tail l.
Proof. destruct l as [|x l]; [reflexivity|]. apply (slice_from_nat (x :: l) 1). cbn. lia. Qed.

(** A slice that stops at [-0] stops at [0]: from any start it is empty. *)
Lemma slice_stop_0 {A} (l : list A) (start : Z) : slice l start (- 0) = [].
Proof.
  unfold slice. change (- 0)%Z with 0%Z.
  assert (Hb : slice_bound (len l) 0 = 0%Z).
  { unfold slice_bound. pose proof (len_nonneg l). cbn. lia. }
  rewrite Hb.
  assert (Ha : (0 <= slice_bound (len l) start)%Z).
  { unfold slice_bound. pose proof (len_nonneg l).
    destruct (start <? 0)%Z eqn:E; [lia|]. apply Z.ltb_ge in E. lia. }
  replace (Z.to_nat (0 - slice_bound (len l) start)) with 0%nat by lia.
  apply take_0.
Qed.

(** A slice from a position in range that stops [k > 0] elements before
    the end: everything from that position but the last [k] elements. *)
Lemma slice_reserve {A} (l : list A) (i k : nat) :
  (i <= length l)%nat -> (0 < k)%nat ->
  slice l (Z.of_nat i) (- Z.of_nat k) = take (length l - k - i) (drop i l).
Proof.
  intros Hi Hk. unfold slice, slice_bound, len.
  destruct (Z.ltb_spec (Z.of_nat i) 0) as [Hneg|_]; [lia|].
  destruct (Z.ltb_spec (- Z.of_nat k) 0) as [_|Hpos]; [|lia].
  rewrite (Z.min_l (Z.of_nat i)) by lia. rewrite Nat2Z.id.
  f_equal. lia.
Qed.

(** ** Sub-command resolution *)

Lemma index_of_named (token : string) (subs : list Command) :
  match index_of token (map plugins.name subs) with
  | Some i =>
      exists sub, subs !! i = Some sub
        /\ List.find (fun s => String.eqb (plugins.name s) token) subs = Some sub
  | None =>
      List.find (fun s => String.eqb (plugins.name s) token) subs = None
  end.
Proof.
  induction subs as [|s subs IH]; cbn [map index_of List.find]; [reflexivity|].
  rewrite (String.eqb_sym (plugins.name s) token).
  destruct (String.eqb token (plugins.name s)).
  - exists s. split; reflexivity.
  - destruct (index_of token (map plugins.name subs)) as [i|]; cbn.
    + exact IH.
    + exact IH.
Qed.

Lemma sub_command_loop_resolves (h : list (list Command)) (toks : list string) :
  forall command k,
    exists found n,
      resolves h command toks found n
      /\ sub_command_loop h command k toks = (found, (k + Z.of_nat n)%Z).
Proof.
  induction toks as [|tok rest IH]; intros command k.
  - exists command, 0%nat. split; [constructor|]. cbn. f_equal. lia.
  - cbn [sub_command_loop].
    pose proof (index_of_named tok (deref h (sub_commands command))) as Hidx.
    destruct (index_of tok (map plugins.name (deref h (sub_commands command))))
      as [i|].
    + destruct Hidx as (sub & Hsub & Hfind). rewrite Hsub.
      destruct (IH sub (k + 1)%Z) as (found & n & Hres & Hloop).
      exists found, (S n). split.
      * eapply resolves_descend; eauto.
      * rewrite Hloop. f_equal. lia.
    + destruct (IH command k) as (found & n & Hres & Hloop).
      exists found, n. split; [|exact Hloop].
      apply resolves_pass; assumption.
Qed.

Lemma resolves_descents_le h command toks found n :
  resolves h command toks found n -> (n <= length toks)%nat.
Proof. induction 1; cbn; lia. Qed.

(** C10. Sub-command resolution scans the tokens after the first in order,
    descending at every token that names a sub-command of the current
    command and passing over the others, and it removes one token from the
    front of the token list per descent, whichever tokens matched: for
    [!plugin math reload] the resolved command is [reload] and the tokens
    handed to the binder start at [math]. *)
Theorem get_sub_command_removes_front_tokens :
  (forall h command cmd_args,
      exists found n,
        resolves h command (tail cmd_args) found n
        /\ get_sub_command h command cmd_args
           = (found, drop n cmd_args, Z.of_nat n))
  /\ get_sub_command (heap example.st3) example.plugin_command
       ["!plugin"; "math"; "reload"]
     = (example.reload_command, ["math"; "reload"], 1%Z).
Proof.
  split; [|reflexivity].
  intros h command cmd_args. unfold get_sub_command.
  rewrite slice_from_1.
  destruct (sub_command_loop_resolves h (tail cmd_args) command 0)
    as (found & n & Hres & Hloop).
  exists found, n. split; [exact Hres|].
  rewrite Hloop. rewrite Z.add_0_l.
  rewrite slice_from_nat; [reflexivity|].
  apply resolves_descents_le in Hres.
  destruct cmd_args; cbn in *; lia.
Qed.

(** ** The parameter binder *)

Section binder_facts.
Context (utils : Utils).

Lemma getitem_in_range {A} (l : list A) (i : Z) :
  (0 <= i < len l)%Z -> exists x, l !! Z.to_nat i = Some x /\ getitem l i = Ok x.
Proof.
  intros [H0 H1]. unfold len in H1.
  destruct (lookup_lt_is_Some_2 l (Z.to_nat i)) as [x Hx]; [lia|].
  exists x. split; [exact Hx|].
  rewrite <- (Z2Nat.id i) by lia. apply getitem_nat. exact Hx.
Qed.

Lemma for_parameters_app kw cmd_args start msg (pre post : list parameter) :
  forall s,
    for_parameters utils kw cmd_args start msg s (pre ++ post)
    = match for_parameters utils kw cmd_args start msg s pre with
      | Next s' => for_parameters utils kw cmd_args start msg s' post
      | stop => stop
      end.
Proof.
  induction pre as [|p pre IH]; intros s; cbn [app for_parameters]; [reflexivity|].
  destruct (loop_body utils kw cmd_args start msg s p); try reflexivity.
  apply IH.
Qed.

(** The two infrastructure parameters consume no token. *)
Lemma infrastructure_parameters kw cmd_args start msg pc pm rest :
  is_object DiscordClient (annotation pc) = true ->
  is_object DiscordMessage (annotation pm) = true ->
  for_parameters utils kw cmd_args start msg init_locals (pc :: pm :: rest)
  = for_parameters utils kw cmd_args start msg
      (mk_locals [] ∅ 1%Z false 0%Z) rest.
Proof.
  intros Hc Hm. cbn [for_parameters].
  unfold loop_body at 1. cbn. rewrite Hc.
  unfold loop_body at 1. cbn. rewrite Hm. reflexivity.
Qed.

(** With no keyword-only parameter in the signature the slice of the
    [VAR_POSITIONAL] branch stops at [-0]: the branch sees no token. *)
Lemma var_positional_step_no_keyword_only cmd_args start msg s p :
  kind p = VAR_POSITIONAL ->
  (1 <= index s)%Z ->
  (index s < len cmd_args)%Z ->
  loop_body utils 0 cmd_args start msg s p
  = Next (mk_locals (args s) (kwargs s)
            (index s + 1
             + (if (num_pos_args s =? 0)%Z then 0 else num_pos_args s - 1))%Z
            true (num_pos_args s)).
Proof.
  intros Hk H1 Hlen. unfold loop_body. cbn [index set_index args kwargs num_pos_args].
  destruct (Z.eqb_spec (index s + 1) 0) as [E|_]; [lia|].
  destruct (Z.eqb_spec (index s + 1) 1) as [E|_]; [lia|].
  destruct (Z.leb_spec (index s + 1) (len cmd_args)) as [_|E]; [|lia].
  destruct (getitem_in_range cmd_args (index s + 1 - 1)) as (tok & _ & Htok); [lia|].
  rewrite Htok, Hk. rewrite slice_stop_0. cbn [var_positional_loop].
  reflexivity.
Qed.

(** What the inner loop binds when the annotation returns on every token:
    the values that are not [None], in order. *)
Lemma var_positional_loop_values p idx msg (value : string -> pyval) :
  forall toks acc n,
    (forall tok, tok ∈ toks -> parse_annotation utils p tok idx msg = Ok (value tok)) ->
    var_positional_loop utils p toks idx msg acc n
    = Ok (acc ++ List.filter (fun v => negb (is_None v)) (map value toks),
          (n + len (List.filter (fun v => negb (is_None v)) (map value toks)))%Z).
Proof.
  induction toks as [|tok toks IH]; intros acc n Hall.
  - cbn. rewrite app_nil_r. f_equal. f_equal. unfold len. cbn. lia.
  - cbn [var_positional_loop map List.filter].
    rewrite (Hall tok) by (left).
    assert (Hrest : forall t, t ∈ toks ->
              parse_annotation utils p t idx msg = Ok (value t)).
    { intros t Ht. apply Hall. right. exact Ht. }
    destruct (is_None (value tok)) eqn:E; cbn [negb].
    + apply IH. exact Hrest.
    + rewrite IH by exact Hrest. rewrite <- app_assoc. cbn [app].
      f_equal. f_equal. rewrite len_cons. lia.
Qed.

(** With [k > 0] keyword-only parameters the branch runs the inner loop on
    every token from the cursor on except the last [k]. *)
Lemma var_positional_step_reserves_keyword_only (k : nat) cmd_args start msg s p :
  kind p = VAR_POSITIONAL ->
  (0 < k)%nat ->
  (1 <= index s)%Z ->
  (index s < len cmd_args)%Z ->
  loop_body utils (Z.of_nat k) cmd_args start msg s p
  = match var_positional_loop utils p
            (take (length cmd_args - k - Z.to_nat (index s))
               (drop (Z.to_nat (index s)) cmd_args))
            (index s + 1 + start)%Z msg (args s) (num_pos_args s) with
    | Raise e => Throw e
    | Ok (args', n) =>
        Next (mk_locals args' (kwargs s)
                (index s + 1 + (if (n =? 0)%Z then 0 else n - 1))%Z true n)
    end.
Proof.
  intros Hk Hpos H1 Hlen. unfold loop_body. cbn [index set_index args kwargs num_pos_args].
  destruct (Z.eqb_spec (index s + 1) 0) as [E|_]; [lia|].
  destruct (Z.eqb_spec (index s + 1) 1) as [E|_]; [lia|].
  destruct (Z.leb_spec (index s + 1) (len cmd_args)) as [_|E]; [|lia].
  destruct (getitem_in_range cmd_args (index s + 1 - 1)) as (tok & _ & Htok); [lia|].
  rewrite Htok, Hk.
  replace (index s + 1 - 1)%Z with (Z.of_nat (Z.to_nat (index s))) by lia.
  rewrite slice_reserve; [reflexivity| |exact Hpos].
  unfold len in Hlen. lia.
Qed.

End binder_facts.

Section binder_claims.
Context (utils : Utils).

Lemma each_yields_cons p ps toks (j : nat) start msg tok :
  toks !! j = Some tok ->
  each_yields utils (p :: ps) toks j start msg
  <-> yields_value utils p tok (Z.of_nat j + 1 + start) msg
      /\ each_yields utils ps toks (S j) start msg.
Proof.
  intros Htok. unfold each_yields. split.
  - intros H. split.
    + specialize (H 0%nat p tok). rewrite Nat.add_0_r in H.
      apply H; [reflexivity|exact Htok].
    + intros i q t Hq Ht.
      specialize (H (S i) q t Hq).
      replace (j + S i)%nat with (S j + i)%nat in H by lia.
      apply H. exact Ht.
  - intros [H0 Hrest] i q t Hq Ht. destruct i as [|i].
    + cbn in Hq. injection Hq as <-. rewrite Nat.add_0_r in *.
      rewrite Htok in Ht. injection Ht as <-. exact H0.
    + cbn in Hq.
      replace (j + S i)%nat with (S j + i)%nat in * by lia.
      apply Hrest; assumption.
Qed.

(** The loop over required positional parameters, from the [j]-th token
    on: the result is complete exactly when a token is there for every
    parameter and every annotation yields a value. *)
Lemma required_positional_loop kw c0 toks start msg params :
  forall ps s (j : nat),
    index s = Z.of_nat (S j) ->
    has_pos s = false ->
    (j <= length toks)%nat ->
    (len params - 2)%Z = Z.of_nat (j + length ps) ->
    Forall required_positional ps ->
    marked_complete
      (finish params (for_parameters utils kw (c0 :: toks) start msg s ps))
    <-> (j + length ps <= length toks)%nat
        /\ each_yields utils ps toks j start msg.
Proof.
  induction ps as [|p ps IH]; intros s j Hidx Hpos Hj Hn Hreq.
  - cbn [for_parameters finish]. unfold after_loop. rewrite Hpos.
    cbn [length] in *. split.
    + intros _. split; [lia|]. intros i q t Hq. destruct i; discriminate Hq.
    + intros _. exists (args s), (kwargs s). do 2 f_equal.
      apply Z.eqb_eq. lia.
  - inversion Hreq as [|? ? [Hkind Hdef] Hreq']; subst.
    cbn [for_parameters]. unfold loop_body.
    cbn [index set_index args kwargs has_pos num_pos_args].
    destruct (Z.eqb_spec (index s + 1) 0) as [E|_]; [lia|].
    destruct (Z.eqb_spec (index s + 1) 1) as [E|_]; [lia|].
    rewrite len_cons. unfold len.
    destruct (Z.leb_spec (index s + 1) (Z.of_nat (length toks) + 1)) as [Hle|Hgt].
    + (* a token is left for [p] *)
      destruct (lookup_lt_is_Some_2 toks j) as [tok Htok]; [lia|].
      replace (index s + 1 - 1)%Z with (Z.of_nat (S j)) by lia.
      rewrite (getitem_nat (c0 :: toks) (S j) tok) by exact Htok.
      rewrite Hkind.
      replace (Z.of_nat (S j) + start)%Z with (Z.of_nat j + 1 + start)%Z by lia.
      rewrite (each_yields_cons p ps toks j start msg tok Htok).
      destruct (parse_annotation utils p tok (Z.of_nat j + 1 + start) msg)
        as [v|e] eqn:Hanno.
      * destruct (is_None v) eqn:Hv; cbn [negb].
        -- rewrite Hdef. cbn [finish]. split.
           ++ intros (a & k & H). discriminate H.
           ++ intros (_ & (v' & Hv' & Hnone) & _).
              rewrite Hanno in Hv'. injection Hv' as <-. congruence.
        -- rewrite (IH _ (S j)); cbn [index append_arg set_index has_pos length] in *;
             try assumption; try lia.
           split.
           ++ intros [Hlen Hall]. split; [lia|]. split; [|exact Hall].
              exists v. split; [exact Hanno|exact Hv].
           ++ intros (Hlen & _ & Hall). split; [lia|exact Hall].
      * cbn [finish]. split.
        -- intros (a & k & H). discriminate H.
        -- intros (_ & (v' & Hv' & _) & _). rewrite Hanno in Hv'. discriminate Hv'.
    + (* no token is left *)
      unfold no_argument. rewrite Hdef. cbn [finish]. unfold after_loop.
      cbn [index set_index has_pos args kwargs]. rewrite Hpos.
      cbn [length] in *. split.
      * intros (a & k & H). injection H as _ _ H.
        apply Z.eqb_eq in H. lia.
      * intros [Hlen _]. lia.
Qed.

(** C3, as the code has it. For a handler with exactly N positional
    parameters after the two infrastructure parameters, none with a
    default, the Invocation is marked complete if and only if at least N
    tokens follow the command token and the annotation of each parameter
    yields a value for its token; tokens after the N-th are ignored. *)
Theorem required_positional_complete_iff
    (command : Command) (pc pm : parameter) (ps : list parameter)
    (c0 : string) (toks : list string) (start : Z) (msg : Message) :
  signature (function command) = pc :: pm :: ps ->
  is_object DiscordClient (annotation pc) = true ->
  is_object DiscordMessage (annotation pm) = true ->
  Forall required_positional ps ->
  marked_complete (parse_command_args utils command (c0 :: toks) start msg)
  <-> (length ps <= length toks)%nat
      /\ each_yields utils ps toks 0 start msg.
Proof.
  intros Hsig Hc Hm Hreq. unfold parse_command_args. rewrite Hsig.
  rewrite infrastructure_parameters by assumption.
  apply (required_positional_loop _ c0 toks start msg (pc :: pm :: ps) ps _ 0%nat);
    cbn [index has_pos]; try reflexivity; try assumption; try lia.
  rewrite !len_cons. unfold len. cbn. lia.
Qed.

(** C1, on the code. When the signature has no keyword-only parameter and
    binding reaches the [VAR_POSITIONAL] parameter with tokens left, the
    parameter consumes none of them: the positional arguments stay as they
    were. *)
Theorem var_positional_without_keyword_only_binds_nothing
    (cmd_args : list string) (start : Z) (msg : Message) (s : locals)
    (p : parameter) :
  kind p = VAR_POSITIONAL ->
  (1 <= index s)%Z ->
  (index s < len cmd_args)%Z ->
  exists s',
    loop_body utils 0 cmd_args start msg s p = Next s'
    /\ args s' = args s
    /\ num_pos_args s' = num_pos_args s.
Proof.
  intros Hk H1 Hlen.
  rewrite (var_positional_step_no_keyword_only utils cmd_args start msg s p)
    by assumption.
  eexists. split; [reflexivity|]. split; reflexivity.
Qed.

(** C2, on the code. A handler whose only parameter after the two
    infrastructure parameters is a [VAR_POSITIONAL] one is never complete,
    whatever the tokens, the empty sequence included. *)
Theorem lone_var_positional_never_complete
    (command : Command) (pc pm p : parameter)
    (cmd_args : list string) (start : Z) (msg : Message) :
  signature (function command) = [pc; pm; p] ->
  is_object DiscordClient (annotation pc) = true ->
  is_object DiscordMessage (annotation pm) = true ->
  kind pc = POSITIONAL_OR_KEYWORD ->
  kind pm = POSITIONAL_OR_KEYWORD ->
  kind p = VAR_POSITIONAL ->
  default p = None ->
  parse_command_args utils command cmd_args start msg = Ok ([], ∅, false).
Proof.
  intros Hsig Hc Hm Hkc Hkm Hk Hd. unfold parse_command_args. rewrite Hsig.
  rewrite infrastructure_parameters by assumption.
  assert (Hkw : count_keyword_only [pc; pm; p] = 0%Z).
  { unfold count_keyword_only. cbn [List.filter]. rewrite Hkc, Hkm, Hk.
    reflexivity. }
  rewrite Hkw. cbn [for_parameters].
  destruct (Z.ltb_spec 1 (len cmd_args)) as [Hlen|Hlen].
  - rewrite var_positional_step_no_keyword_only by (cbn; first [assumption|lia]).
    reflexivity.
  - unfold loop_body. cbn [index set_index].
    destruct (Z.leb_spec (1 + 1) (len cmd_args)) as [E|_]; [lia|].
    cbn. unfold no_argument. rewrite Hd. reflexivity.
Qed.

(** A callable annotation that raises anything but a [TypeError] gives
    [None]. *)
Lemma parse_annotation_swallows p o f tok idx msg e :
  annotation p = AnnoObject o f ->
  f tok = Raise e ->
  is_TypeError e = false ->
  parse_annotation utils p tok idx msg = Ok PyNone.
Proof.
  intros Ha Hf He. unfold parse_annotation. rewrite Ha, Hf, He. reflexivity.
Qed.

(** A [TypeError] raised by the annotation leaves [parse_annotation] as a
    [TypeError]. *)
Lemma parse_annotation_reraises p o f tok idx msg e :
  annotation p = AnnoObject o f ->
  f tok = Raise e ->
  is_TypeError e = true ->
  parse_annotation utils p tok idx msg = Raise annotation_error.
Proof.
  intros Ha Hf He. unfold parse_annotation. rewrite Ha, Hf, He. reflexivity.
Qed.

(** One turn of the loop on a fixed parameter whose annotation gives
    [None] for the token at the cursor. *)
Lemma loop_body_no_value kw cmd_args start msg s p cmd_arg :
  (1 <= index s)%Z ->
  cmd_args !! Z.to_nat (index s) = Some cmd_arg ->
  kind p = POSITIONAL_OR_KEYWORD \/ kind p = KEYWORD_ONLY ->
  parse_annotation utils p cmd_arg (index s + start) msg = Ok PyNone ->
  loop_body utils kw cmd_args start msg s p
  = match default p with
    | None => Return (args s, kwargs s, false)
    | Some d =>
        Next (match kind p with
              | KEYWORD_ONLY =>
                  set_kwarg (inspect.name p) d (set_index (index s + 1)%Z s)
              | _ => append_arg d (set_index (index s + 1)%Z s)
              end)
    end.
Proof.
  intros H1 Htok Hkind Hanno. unfold loop_body.
  cbn [index set_index args kwargs].
  destruct (Z.eqb_spec (index s + 1) 0) as [E|_]; [lia|].
  destruct (Z.eqb_spec (index s + 1) 1) as [E|_]; [lia|].
  pose proof (lookup_lt_Some _ _ _ Htok) as Hlt.
  destruct (Z.leb_spec (index s + 1) (len cmd_args)) as [_|E];
    [|unfold len in E; lia].
  replace (index s + 1 - 1)%Z with (Z.of_nat (Z.to_nat (index s))) by lia.
  rewrite (getitem_nat _ _ _ Htok).
  replace (Z.of_nat (Z.to_nat (index s)) + start)%Z with (index s + start)%Z by lia.
  destruct Hkind as [Hk|Hk]; rewrite Hk, Hanno; cbn [is_None negb];
    destruct (default p); reflexivity.
Qed.

(** One turn of the loop on a fixed parameter whose annotation raises for
    the token at the cursor. *)
Lemma loop_body_raises kw cmd_args start msg s p cmd_arg e :
  (1 <= index s)%Z ->
  cmd_args !! Z.to_nat (index s) = Some cmd_arg ->
  kind p = POSITIONAL_OR_KEYWORD \/ kind p = KEYWORD_ONLY ->
  parse_annotation utils p cmd_arg (index s + start) msg = Raise e ->
  loop_body utils kw cmd_args start msg s p = Throw e.
Proof.
  intros H1 Htok Hkind Hanno. unfold loop_body.
  cbn [index set_index args kwargs].
  destruct (Z.eqb_spec (index s + 1) 0) as [E|_]; [lia|].
  destruct (Z.eqb_spec (index s + 1) 1) as [E|_]; [lia|].
  pose proof (lookup_lt_Some _ _ _ Htok) as Hlt.
  destruct (Z.leb_spec (index s + 1) (len cmd_args)) as [_|E];
    [|unfold len in E; lia].
  replace (index s + 1 - 1)%Z with (Z.of_nat (Z.to_nat (index s))) by lia.
  rewrite (getitem_nat _ _ _ Htok).
  replace (Z.of_nat (Z.to_nat (index s)) + start)%Z with (index s + start)%Z by lia.
  destruct Hkind as [Hk|Hk]; rewrite Hk, Hanno; reflexivity.
Qed.

(** The loop over the tokens of a variadic parameter drops a token for
    which the annotation gives [None]: it goes on as if the token were not
    there. *)
Lemma var_positional_loop_drops p tok idx msg (before after : list string) :
  parse_annotation utils p tok idx msg = Ok PyNone ->
  forall acc n,
    var_positional_loop utils p (before ++ tok :: after) idx msg acc n
    = var_positional_loop utils p (before ++ after) idx msg acc n.
Proof.
  intros Hanno. induction before as [|t before IH]; intros acc n.
  - cbn [app var_positional_loop]. rewrite Hanno. reflexivity.
  - cbn [app var_positional_loop].
    destruct (parse_annotation utils p t idx msg) as [v|e']; [|reflexivity].
    destruct (is_None v); apply IH.
Qed.

(** The loop over the tokens of a variadic parameter raises as soon as the
    annotation, a callable object, raises a [TypeError] on one of them. *)
Lemma var_positional_loop_reraises p o f tok idx msg e (toks : list string) :
  annotation p = AnnoObject o f ->
  f tok = Raise e ->
  is_TypeError e = true ->
  In tok toks ->
  forall acc n,
    var_positional_loop utils p toks idx msg acc n = Raise annotation_error.
Proof.
  intros Ha Hf He. induction toks as [|t toks IH]; intros Hin acc n.
  - destruct Hin.
  - cbn [var_positional_loop].
    destruct (string_dec t tok) as [->|Hne].
    + rewrite (parse_annotation_reraises p o f tok idx msg e Ha Hf He).
      reflexivity.
    + assert (Hin' : In tok toks) by (destruct Hin as [E|E]; [congruence|exact E]).
      unfold parse_annotation. rewrite Ha.
      destruct (f t) as [v|e'].
      * destruct (is_None v); apply IH; exact Hin'.
      * destruct (is_TypeError e'); [reflexivity|].
        cbn [is_None]. apply IH; exact Hin'.
Qed.

(** One turn of the loop on a variadic parameter with a token at the
    cursor: the inner loop runs over the slice. *)
Lemma loop_body_var_positional kw cmd_args start msg s p :
  kind p = VAR_POSITIONAL ->
  (1 <= index s)%Z ->
  (index s < len cmd_args)%Z ->
  loop_body utils kw cmd_args start msg s p
  = match var_positional_loop utils p (slice cmd_args (index s) (- kw))
            (index s + 1 + start)%Z msg (args s) (num_pos_args s) with
    | Raise e => Throw e
    | Ok (args', n) =>
        Next (mk_locals args' (kwargs s)
                (index s + 1 + (if (n =? 0)%Z then 0 else n - 1))%Z true n)
    end.
Proof.
  intros Hk H1 Hlen. unfold loop_body.
  cbn [index set_index args kwargs num_pos_args].
  destruct (Z.eqb_spec (index s + 1) 0) as [E|_]; [lia|].
  destruct (Z.eqb_spec (index s + 1) 1) as [E|_]; [lia|].
  destruct (Z.leb_spec (index s + 1) (len cmd_args)) as [_|E]; [|lia].
  destruct (getitem_in_range cmd_args (index s + 1 - 1)) as (tok & _ & Htok);
    [lia|].
  rewrite Htok, Hk.
  replace (index s + 1 - 1)%Z with (index s) by lia. reflexivity.
Qed.

(** C4, as the code has it. Take a parameter whose annotation is a
    function that raises on a token.  If the exception is anything but a
    [TypeError], the annotation step turns it into "no value" ([None])
    instead of propagating it; for a positional or keyword-only parameter
    "no value" binds the parameter's default when there is one and binding
    goes on, and otherwise the bind returns at once with an incomplete
    Invocation; for a variadic parameter the token is dropped and the bind
    goes on as if the token were not among the parameter's tokens.  If the
    exception is a [TypeError], the annotation step raises a [TypeError],
    and so does the bind, whether the token is read for a positional, a
    keyword-only or a variadic parameter. *)
Theorem coercion_failure_binds_default_or_fails
    (p : parameter) (cmd_arg : string) (o : anno_object)
    (f : string -> res pyval) (e : exn) (msg : Message) :
  annotation p = AnnoObject o f ->
  f cmd_arg = Raise e ->
  if is_TypeError e then
    (forall idx, parse_annotation utils p cmd_arg idx msg = Raise annotation_error)
    /\ (forall (command : Command) (pre post : list parameter)
               (cmd_args : list string) (start : Z) (s : locals),
           signature (function command) = pre ++ p :: post ->
           for_parameters utils (count_keyword_only (pre ++ p :: post))
             cmd_args start msg init_locals pre = Next s ->
           (1 <= index s)%Z ->
           cmd_args !! Z.to_nat (index s) = Some cmd_arg ->
           kind p = POSITIONAL_OR_KEYWORD \/ kind p = KEYWORD_ONLY ->
           parse_command_args utils command cmd_args start msg
           = Raise annotation_error)
    /\ (forall (command : Command) (pre post : list parameter)
               (cmd_args : list string) (start : Z) (s : locals),
           signature (function command) = pre ++ p :: post ->
           for_parameters utils (count_keyword_only (pre ++ p :: post))
             cmd_args start msg init_locals pre = Next s ->
           (1 <= index s)%Z ->
           (index s < len cmd_args)%Z ->
           kind p = VAR_POSITIONAL ->
           In cmd_arg
             (slice cmd_args (index s)
                (- count_keyword_only (pre ++ p :: post))) ->
           parse_command_args utils command cmd_args start msg
           = Raise annotation_error)
  else
    (forall idx, parse_annotation utils p cmd_arg idx msg = Ok PyNone)
    /\ (forall (command : Command) (pre post : list parameter)
               (cmd_args : list string) (start : Z) (s : locals),
           signature (function command) = pre ++ p :: post ->
           for_parameters utils (count_keyword_only (pre ++ p :: post))
             cmd_args start msg init_locals pre = Next s ->
           (1 <= index s)%Z ->
           cmd_args !! Z.to_nat (index s) = Some cmd_arg ->
           kind p = POSITIONAL_OR_KEYWORD \/ kind p = KEYWORD_ONLY ->
           match default p with
           | None =>
               parse_command_args utils command cmd_args start msg
               = Ok (args s, kwargs s, false)
           | Some d =>
               for_parameters utils (count_keyword_only (pre ++ p :: post))
                 cmd_args start msg init_locals (pre ++ [p])
               = Next (match kind p with
                       | KEYWORD_ONLY =>
                           set_kwarg (inspect.name p) d
                             (set_index (index s + 1)%Z s)
                       | _ => append_arg d (set_index (index s + 1)%Z s)
                       end)
           end)
    /\ (forall (pre post : list parameter) (cmd_args : list string)
               (start : Z) (s : locals) (before after : list string),
           for_parameters utils (count_keyword_only (pre ++ p :: post))
             cmd_args start msg init_locals pre = Next s ->
           (1 <= index s)%Z ->
           (index s < len cmd_args)%Z ->
           kind p = VAR_POSITIONAL ->
           slice cmd_args (index s) (- count_keyword_only (pre ++ p :: post))
           = before ++ cmd_arg :: after ->
           for_parameters utils (count_keyword_only (pre ++ p :: post))
             cmd_args start msg init_locals (pre ++ [p])
           = match var_positional_loop utils p (before ++ after)
                     (index s + 1 + start)%Z msg (args s) (num_pos_args s) with
             | Raise e' => Throw e'
             | Ok (args', n) =>
                 Next (mk_locals args' (kwargs s)
                         (index s + 1 + (if (n =? 0)%Z then 0 else n - 1))%Z
                         true n)
             end).
Proof.
  intros Ha Hf. destruct (is_TypeError e) eqn:He.
  - split; [|split].
    + intros idx. exact (parse_annotation_reraises p o f cmd_arg idx msg e Ha Hf He).
    + intros command pre post cmd_args start s Hsig Hpre H1 Htok Hkind.
      pose proof (parse_annotation_reraises p o f cmd_arg (index s + start)%Z
                    msg e Ha Hf He) as Hanno.
      pose proof (loop_body_raises (count_keyword_only (pre ++ p :: post))
                    cmd_args start msg s p cmd_arg annotation_error
                    H1 Htok Hkind Hanno) as Hbody.
      unfold parse_command_args. rewrite Hsig.
      rewrite for_parameters_app, Hpre. cbn [for_parameters].
      rewrite Hbody. reflexivity.
    + intros command pre post cmd_args start s Hsig Hpre H1 Hlen Hkind Hin.
      unfold parse_command_args. rewrite Hsig.
      rewrite for_parameters_app, Hpre. cbn [for_parameters].
      rewrite (loop_body_var_positional _ cmd_args start msg s p Hkind H1 Hlen).
      rewrite (var_positional_loop_reraises p o f cmd_arg _ msg e _
                 Ha Hf He Hin).
      reflexivity.
  - split; [|split].
    + intros idx. exact (parse_annotation_swallows p o f cmd_arg idx msg e Ha Hf He).
    + intros command pre post cmd_args start s Hsig Hpre H1 Htok Hkind.
      pose proof (parse_annotation_swallows p o f cmd_arg (index s + start)%Z
                    msg e Ha Hf He) as Hanno.
      pose proof (loop_body_no_value (count_keyword_only (pre ++ p :: post))
                    cmd_args start msg s p cmd_arg H1 Htok Hkind Hanno) as Hbody.
      destruct (default p) as [d|].
      * rewrite for_parameters_app, Hpre. cbn [for_parameters]. rewrite Hbody.
        reflexivity.
      * unfold parse_command_args. rewrite Hsig.
        rewrite for_parameters_app, Hpre. cbn [for_parameters]. rewrite Hbody.
        reflexivity.
    + intros pre post cmd_args start s before after Hpre H1 Hlen Hkind Hslice.
      rewrite for_parameters_app, Hpre. cbn [for_parameters].
      rewrite (loop_body_var_positional _ cmd_args start msg s p Hkind H1 Hlen).
      rewrite Hslice.
      rewrite (var_positional_loop_drops p cmd_arg _ msg before after
                 (parse_annotation_swallows p o f cmd_arg _ msg e Ha Hf He)).
      destruct (var_positional_loop utils p (before ++ after)
                  (index s + 1 + start)%Z msg (args s) (num_pos_args s))
        as [[args' n]|e']; reflexivity.
Qed.

End binder_claims.

(** *** The binder on concrete handlers *)

Lemma required_positional_complete_iff_witness :
  marked_complete
    (parse_command_args example.the_utils (example.bare example.echo)
       ("!echo" :: ["a"; "b"]) 0 (example.message "ann" "!echo a b"))
  <-> (1 <= 2)%nat
      /\ each_yields example.the_utils
           [mk_param "text" POSITIONAL_OR_KEYWORD example.str None]
           ["a"; "b"] 0 0 (example.message "ann" "!echo a b").
Proof.
  apply (required_positional_complete_iff example.the_utils
           (example.bare example.echo) example.client_param
           example.message_param
           [mk_param "text" POSITIONAL_OR_KEYWORD example.str None]).
  - reflexivity.
  - reflexivity.
  - reflexivity.
  - repeat constructor.
Defined.

(** C3 as stated fails: [echo] takes exactly one positional parameter, two
    tokens follow the command token, and the Invocation is complete. *)
Lemma exact_token_count_counterexample :
  ~ (marked_complete
       (parse_command_args example.the_utils (example.bare example.echo)
          ("!echo" :: ["a"; "b"]) 0 (example.message "ann" "!echo a b"))
     <-> length ["a"; "b"] = 1%nat
         /\ each_yields example.the_utils
              [mk_param "text" POSITIONAL_OR_KEYWORD example.str None]
              ["a"; "b"] 0 0 (example.message "ann" "!echo a b")).
Proof.
  intros [H _].
  destruct H as [Hlen _]; [|discriminate Hlen].
  exists [PyStr "a"], ∅. reflexivity.
Qed.

Lemma var_positional_without_keyword_only_binds_nothing_witness :
  (exists s',
      loop_body example.the_utils 0 ["!say"; "a"; "b"] 0
        (example.message "ann" "!say a b") (mk_locals [] ∅ 1 false 0)
        (mk_param "words" VAR_POSITIONAL example.str None) = Next s'
      /\ args s' = []
      /\ num_pos_args s' = 0%Z)
  /\ parse_command_args example.the_utils (example.bare example.say)
       ["!say"; "a"; "b"] 0 (example.message "ann" "!say a b")
     = Ok ([], ∅, false).
Proof.
  split.
  - apply (var_positional_without_keyword_only_binds_nothing example.the_utils
             ["!say"; "a"; "b"] 0 (example.message "ann" "!say a b")
             (mk_locals [] ∅ 1 false 0)
             (mk_param "words" VAR_POSITIONAL example.str None)).
    + reflexivity.
    + cbn. lia.
    + unfold len. cbn. lia.
  - reflexivity.
Defined.

Lemma lone_var_positional_never_complete_witness :
  parse_command_args example.the_utils (example.bare example.say) ["!say"] 0
    (example.message "ann" "!say")
  = Ok ([], ∅, false)
  /\ parse_command_args example.the_utils (example.bare example.say)
       ["!say"; "a"] 0 (example.message "ann" "!say a")
     = Ok ([], ∅, false).
Proof.
  split.
  - apply (lone_var_positional_never_complete example.the_utils
             (example.bare example.say) example.client_param
             example.message_param
             (mk_param "words" VAR_POSITIONAL example.str None));
      reflexivity.
  - apply (lone_var_positional_never_complete example.the_utils
             (example.bare example.say) example.client_param
             example.message_param
             (mk_param "words" VAR_POSITIONAL example.str None));
      reflexivity.
Defined.

Lemma coercion_failure_binds_default_or_fails_witness :
  (parse_annotation example.the_utils
     (mk_param "n" POSITIONAL_OR_KEYWORD example.int None) "x" (1 + 0)
     (example.message "ann" "!count x")
   = Ok PyNone
   /\ parse_command_args example.the_utils (example.bare example.count)
        ["!count"; "x"] 0 (example.message "ann" "!count x")
      = Ok ([], ∅, false))
  /\ for_parameters example.the_utils 1 ["!tally"; "1"; "x"; "f"] 0
       (example.message "ann" "!tally 1 x f") init_locals
       ([example.client_param; example.message_param]
        ++ [mk_param "numbers" VAR_POSITIONAL example.int None])
     = Next (mk_locals [PyInt 1] ∅ 2 true 1).
Proof.
  split.
  - pose proof (coercion_failure_binds_default_or_fails example.the_utils
                  (mk_param "n" POSITIONAL_OR_KEYWORD example.int None) "x"
                  OtherObject
                  (fun s => if String.eqb s "1" then Ok (PyInt 1)
                            else Raise (mk_exn ValueError
                                          "invalid literal for int()"))
                  (mk_exn ValueError "invalid literal for int()")
                  (example.message "ann" "!count x") eq_refl eq_refl) as H.
    cbn [is_TypeError exn_cls] in H.
    destruct H as (Hanno & Hbind & _).
    split; [apply Hanno|].
    apply (Hbind (example.bare example.count)
             [example.client_param; example.message_param] []
             ["!count"; "x"] 0%Z (mk_locals [] ∅ 1 false 0)).
    + reflexivity.
    + reflexivity.
    + cbn. lia.
    + reflexivity.
    + left. reflexivity.
  - pose proof (coercion_failure_binds_default_or_fails example.the_utils
                  (mk_param "numbers" VAR_POSITIONAL example.int None) "x"
                  OtherObject
                  (fun s => if String.eqb s "1" then Ok (PyInt 1)
                            else Raise (mk_exn ValueError
                                          "invalid literal for int()"))
                  (mk_exn ValueError "invalid literal for int()")
                  (example.message "ann" "!tally 1 x f") eq_refl eq_refl) as H.
    cbn [is_TypeError exn_cls] in H.
    destruct H as (_ & _ & Hdrop).
    apply (Hdrop [example.client_param; example.message_param]
             [mk_param "flag" KEYWORD_ONLY example.str (Some PyNone)]
             ["!tally"; "1"; "x"; "f"] 0%Z (mk_locals [] ∅ 1 false 0)
             ["1"] []).
    + reflexivity.
    + cbn. lia.
    + vm_compute. reflexivity.
    + reflexivity.
    + reflexivity.
Defined.

(** C4 as stated fails twice: an annotation that raises [TypeError] makes
    [parse_annotation], and with it the whole bind, raise; and a token for
    which the annotation of a [VAR_POSITIONAL] parameter, which has no
    default, yields no value is dropped while the bind still ends
    complete. *)
Lemma coercion_failure_counterexample :
  (parse_annotation example.the_utils
     (mk_param "x" POSITIONAL_OR_KEYWORD example.picky None) "tok" 1
     (example.message "ann" "!check tok")
   = Raise annotation_error
   /\ parse_command_args example.the_utils (example.bare example.check)
        ["!check"; "tok"] 0 (example.message "ann" "!check tok")
      = Raise annotation_error)
  /\ (parse_annotation example.the_utils
        (mk_param "numbers" VAR_POSITIONAL example.int None) "x" 2
        (example.message "ann" "!tally 1 x f")
      = Ok PyNone
      /\ marked_complete
           (parse_command_args example.the_utils (example.bare example.tally)
              ["!tally"; "1"; "x"; "f"] 0
              (example.message "ann" "!tally 1 x f"))).
Proof.
  repeat split; try reflexivity.
  exists [PyInt 1], {["flag" := PyStr "x"]}. reflexivity.
Qed.

(** With one keyword-only parameter the last token is kept for it; the
    result is complete only when exactly one token was captured, and a
    token that the annotation drops is then read again by the
    keyword-only parameter. *)
Example var_positional_with_keyword_only :
  parse_command_args example.the_utils (example.bare example.tag)
    ["!tag"; "a"; "b"; "c"] 0 (example.message "ann" "!tag a b c")
  = Ok ([PyStr "a"; PyStr "b"], {["flag" := PyStr "c"]}, false)
  /\ parse_command_args example.the_utils (example.bare example.tag)
       ["!tag"; "a"; "c"] 0 (example.message "ann" "!tag a c")
     = Ok ([PyStr "a"], {["flag" := PyStr "c"]}, true)
  /\ parse_command_args example.the_utils (example.bare example.tally)
       ["!tally"; "1"; "x"; "f"] 0 (example.message "ann" "!tally 1 x f")
     = Ok ([PyInt 1], {["flag" := PyStr "x"]}, true).
Proof. repeat split; reflexivity. Qed.

(** ** The command registry *)

(** The fixtures are what the decorator produced. *)
Example plugin_command_registered :
  modules example.st1 !! "pcbot.builtin"
  = Some (mk_module (CmdList [example.plugin_command]) None None)
  /\ deref (heap example.st3) (sub_commands example.plugin_command) !! 0%nat
     = Some example.reload_command.
Proof. split; reflexivity. Qed.

Section registry_facts.
Context (utils : Utils).

(** Appending to a stored list, as seen through its address. *)
Lemma deref_append (h : list (list Command)) (l : loc) (cmd : Command) :
  (l < length h)%nat ->
  deref (alter (fun cs : list Command => cs ++ [cmd]) l (h ++ [[]])) l
  = deref h l ++ [cmd].
Proof.
  intros Hl. unfold deref.
  destruct (lookup_lt_is_Some_2 h l Hl) as [cs Hcs].
  rewrite (list_lookup_total_correct h l cs Hcs).
  apply list_lookup_total_correct.
  rewrite list_lookup_alter.
  rewrite lookup_app_l by exact Hl. rewrite Hcs.
  case_decide; [reflexivity|congruence].
Qed.

(** A command whose name is already taken by a top-level command of the
    module is refused, and nothing changes. *)
Lemma command_refuses_top_level_name options func st m commands :
  modules st !! __module__ func = Some m ->
  __commands m = CmdList commands ->
  existsb (fun cmd => String.eqb (plugins.name cmd)
                        (from_option id (__name__ func) (opt_name options)))
    commands = true ->
  command utils options func st
  = (Raise (mk_exn Exception "You can't assign two commands with the same name"),
     st).
Proof.
  intros Hm Hc Hdup. unfold command, bindM, get_state.
  rewrite Hm. cbn [from_option]. rewrite Hc, Hdup. reflexivity.
Qed.

(** C5, on the code. Registering under a parent only looks at the names of
    the module's top-level commands: when none of them has the new name,
    the registration succeeds and the command is appended to the parent's
    sub-commands, whatever names these already have. *)
Theorem sub_command_registration_ignores_siblings
    (options : Options) (func : Handler) (st : State) (m : module_obj)
    (commands : list Command) (p : Command) :
  opt_parent options = Some p ->
  modules st !! __module__ func = Some m ->
  __commands m = CmdList commands ->
  existsb (fun cmd => String.eqb (plugins.name cmd)
                        (from_option id (__name__ func) (opt_name options)))
    commands = false ->
  (sub_commands p < length (heap st))%nat ->
  exists st' cmd,
    command utils options func st = (Ok tt, st')
    /\ plugins.name cmd = from_option id (__name__ func) (opt_name options)
    /\ deref (heap st') (sub_commands p)
       = deref (heap st) (sub_commands p) ++ [cmd].
Proof.
  intros Hp Hm Hc Hnew Hl. unfold command, bindM, get_state.
  rewrite Hm. cbn [from_option]. rewrite Hc, Hnew, Hp.
  unfold new_list, list_append, set_commands, emit, ret.
  cbn [modules heap plugins trace]. rewrite Hm.
  cbn [modules heap plugins trace].
  eexists. eexists. split; [reflexivity|]. cbn [heap]. split.
  2: { apply deref_append. exact Hl. }
  reflexivity.
Qed.

End registry_facts.

Lemma sub_command_registration_ignores_siblings_witness :
  exists st' cmd,
    command example.the_utils (example.under example.plugin_command)
      example.reload_again example.st3 = (Ok tt, st')
    /\ plugins.name cmd = "reload"
    /\ deref (heap st') 0
       = deref (heap example.st3) 0 ++ [cmd].
Proof.
  apply (sub_command_registration_ignores_siblings example.the_utils
           (example.under example.plugin_command) example.reload_again
           example.st3
           (mk_module (CmdList [example.plugin_command]) None None)
           [example.plugin_command] example.plugin_command).
  - reflexivity.
  - reflexivity.
  - reflexivity.
  - reflexivity.
  - vm_compute. lia.
Defined.

(** After the second registration the parent has two sub-commands named
    [reload]; a second top-level [plugin] is refused. *)
Example two_reload_sub_commands :
  map plugins.name
    (deref (heap (example.run
                    (command example.the_utils
                       (example.under example.plugin_command)
                       example.reload_again) example.st3)) 0)
  = ["reload"; "load"; "reload"]
  /\ command example.the_utils (example.named "plugin") example.reload_again
       example.st3
     = (Raise (mk_exn Exception
                 "You can't assign two commands with the same name"),
        example.st3).
Proof. split; reflexivity. Qed.

(** ** The plugin manager *)

Section manager_facts.
Context (utils : Utils).
Context (import_module : string -> M string).

(** C7, as the code has it. When importing the plugin's module raises,
    what [load_plugin] does depends on the exception.  An [ImportError]:
    it returns [False] without raising, logs a warning that carries the
    formatted exception, and adds nothing to the [plugins] dictionary,
    which stays as the import left it.  Any other exception: it is raised
    to the caller, nothing is logged and the state is as the import left
    it. *)
Theorem load_plugin_import_error
    (name package : string) (st st' : State) (e : exn) :
  startswith "__" name && endswith "__" name = false ->
  import_module (package +:+ "." +:+ name) st = (Raise e, st') ->
  load_plugin utils import_module name package st
  = if is_ImportError e then
      (Ok false,
       mk_state (modules st') (heap st') (plugins st')
         (trace st'
          ++ [Log WARNING ("COULD NOT LOAD PLUGIN " +:+ name +:+ nl
                           +:+ format_exception utils e)]))
    else (Raise e, st').
Proof.
  intros Hname Himp. unfold load_plugin.
  rewrite <- negb_andb, Hname. cbn [negb].
  rewrite Himp. destruct (is_ImportError e); reflexivity.
Qed.

(** C8. Unloading a plugin that is not loaded returns normally and leaves
    the whole state, the [plugins] dictionary included, as it was. *)
Theorem unload_plugin_not_loaded (name : string) (st : State) :
  plugins st !! name = None ->
  unload_plugin name st = (Ok tt, st).
Proof.
  intros Hnone. unfold unload_plugin, bindM, get_state.
  rewrite Hnone. rewrite bool_decide_eq_false_2; [reflexivity|].
  intros [x Hx]. discriminate Hx.
Qed.

End manager_facts.

Lemma load_plugin_import_error_witness :
  load_plugin example.the_utils example.import_missing "wordsearch" "plugins"
    example.st_greeter
  = (Ok false,
     mk_state (modules example.st_greeter) (heap example.st_greeter)
       (plugins example.st_greeter)
       [Log WARNING ("COULD NOT LOAD PLUGIN wordsearch" +:+ nl
                     +:+ "No module named plugins.wordsearch")])
  /\ load_plugin example.the_utils example.import_malformed "wordsearch"
       "plugins" example.st_greeter
     = (Raise (mk_exn SyntaxError "invalid syntax"), example.st_greeter).
Proof.
  split.
  - exact (load_plugin_import_error example.the_utils example.import_missing
             "wordsearch" "plugins" example.st_greeter example.st_greeter
             (mk_exn ModuleNotFoundError "No module named plugins.wordsearch")
             eq_refl eq_refl).
  - exact (load_plugin_import_error example.the_utils example.import_malformed
             "wordsearch" "plugins" example.st_greeter example.st_greeter
             (mk_exn SyntaxError "invalid syntax") eq_refl eq_refl).
Defined.

(** C7 as stated fails: a module whose source does not parse makes the
    import raise [SyntaxError], and [load_plugin] raises it to its caller. *)
Lemma malformed_plugin_counterexample :
  load_plugin example.the_utils example.import_malformed "wordsearch" "plugins"
    example.st_greeter
  = (Raise (mk_exn SyntaxError "invalid syntax"), example.st_greeter).
Proof. reflexivity. Qed.

Lemma unload_plugin_not_loaded_witness :
  unload_plugin "wordsearch" example.st_greeter = (Ok tt, example.st_greeter).
Proof.
  apply (unload_plugin_not_loaded "wordsearch" example.st_greeter).
  reflexivity.
Defined.

(** ** Descriptions from docstrings *)

Lemma string_app_cons (x : ascii) (a b : string) :
  String x a +:+ b = String x (a +:+ b).
Proof. reflexivity. Qed.

Lemma string_app_nil_l (b : string) : "" +:+ b = b.
Proof. reflexivity. Qed.

Lemma string_app_assoc (a b c : string) : (a +:+ b) +:+ c = a +:+ (b +:+ c).
Proof.
  induction a as [|x a IH]; [reflexivity|].
  rewrite !string_app_cons. f_equal. exact IH.
Qed.

Lemma string_app_nil_r (a : string) : a +:+ "" = a.
Proof.
  induction a as [|x a IH]; [reflexivity|].
  rewrite string_app_cons. f_equal. exact IH.
Qed.

Lemma rstrip_empty_blank (s : string) : String.eqb (rstrip s) "" = blank s.
Proof.
  induction s as [|c s IH]; cbn [rstrip blank]; [reflexivity|].
  destruct (rstrip s) as [|r0 r] eqn:E.
  - cbn in IH. rewrite <- IH. destruct (isspace c); reflexivity.
  - cbn in IH. rewrite <- IH. cbn. rewrite andb_false_r. reflexivity.
Qed.

Lemma blank_rstrip (s : string) : blank (rstrip s) = blank s.
Proof.
  induction s as [|c s IH]; cbn [rstrip blank]; [reflexivity|].
  pose proof (rstrip_empty_blank s) as Hs.
  destruct (rstrip s) as [|r0 r] eqn:E.
  - cbn in Hs. rewrite <- Hs. destruct (isspace c) eqn:Ec; cbn; [reflexivity|].
    rewrite Ec. reflexivity.
  - cbn [blank] in *. rewrite IH. reflexivity.
Qed.

Lemma lstrip_empty_blank (s : string) : String.eqb (lstrip s) "" = blank s.
Proof.
  induction s as [|c s IH]; cbn [lstrip blank]; [reflexivity|].
  destruct (isspace c); cbn; [exact IH|reflexivity].
Qed.

(** A line strips to nothing exactly when it is blank. *)
Lemma strip_empty_blank (s : string) : String.eqb (strip s) "" = blank s.
Proof. unfold strip. rewrite lstrip_empty_blank. apply blank_rstrip. Qed.

Lemma rstrip_blank_suffix (s t : string) :
  blank t = true -> rstrip (s +:+ t) = rstrip s.
Proof.
  intros Ht. induction s as [|c s IH].
  - rewrite string_app_nil_l. cbn [rstrip].
    pose proof (rstrip_empty_blank t) as H. rewrite Ht in H.
    apply String.eqb_eq in H. exact H.
  - rewrite string_app_cons. cbn [rstrip]. rewrite IH. reflexivity.
Qed.

Lemma drop_last_marker (body : string) :
  drop_last (body +:+ marker) = body +:+ "  ".
Proof.
  induction body as [|c body IH]; [reflexivity|].
  rewrite !string_app_cons. cbn [drop_last]. rewrite IH.
  destruct (body +:+ marker) eqn:E; [|reflexivity].
  destruct body; discriminate E.
Qed.

(** The source's test and slice for the marker agree with removing it. *)
Lemma endswith_before_marker (line : string) :
  match before_marker line with
  | Some body => endswith marker line = true /\ line = body +:+ marker
  | None => endswith marker line = false
  end.
Proof.
  induction line as [|c line IH].
  - reflexivity.
  - cbn [before_marker endswith].
    destruct (String.eqb_spec (String c line) marker) as [E|E].
    + split; [reflexivity|]. rewrite E. reflexivity.
    + cbn [orb]. destruct (before_marker line) as [body|]; cbn [fmap option_fmap option_map].
      * destruct IH as [H1 H2]. split; [exact H1|].
        rewrite string_app_cons, <- H2. reflexivity.
      * exact IH.
Qed.

(** One turn of the source's loop appends the rendering of the line. *)
Lemma format_line_render (new_desc line : string) :
  format_line new_desc line = new_desc +:+ render_line line.
Proof.
  unfold format_line, render_line.
  pose proof (endswith_before_marker line) as H.
  destruct (before_marker line) as [body|].
  - destruct H as [He Hl]. change "  /" with marker. rewrite He.
    rewrite Hl at 1. rewrite drop_last_marker.
    unfold strip. rewrite rstrip_blank_suffix by reflexivity. reflexivity.
  - change "  /" with marker. rewrite H. rewrite strip_empty_blank.
    destruct (blank line); reflexivity.
Qed.

Lemma fold_format_line (lines : list string) :
  forall acc, fold_left format_line lines acc = acc +:+ render_lines lines.
Proof.
  induction lines as [|l lines IH]; intros acc; cbn [fold_left render_lines].
  - rewrite string_app_nil_r. reflexivity.
  - rewrite IH, format_line_render. apply string_app_assoc.
Qed.

Lemma split_lines_single (line : string) :
  single_line line = true -> split_lines line = [line].
Proof.
  induction line as [|c line IH]; intros H; [reflexivity|].
  cbn [single_line] in H. apply andb_true_iff in H as [Hc Hl].
  cbn [split_lines]. apply negb_true_iff in Hc. rewrite Hc.
  rewrite (IH Hl). reflexivity.
Qed.

Lemma split_lines_app (line rest : string) :
  single_line line = true ->
  split_lines (line +:+ nl +:+ rest) = line :: split_lines rest.
Proof.
  induction line as [|c line IH]; intros H.
  - reflexivity.
  - cbn [single_line] in H. apply andb_true_iff in H as [Hc Hl].
    rewrite string_app_cons. cbn [split_lines].
    apply negb_true_iff in Hc. rewrite Hc.
    rewrite (IH Hl). reflexivity.
Qed.

(** Splitting a text at its line breaks gives back its lines. *)
Lemma split_join_lines (lines : list string) :
  lines <> [] ->
  Forall (fun l => single_line l = true) lines ->
  split_lines (join_lines lines) = lines.
Proof.
  induction lines as [|l lines IH]; intros Hne Hall; [congruence|].
  inversion Hall as [|? ? Hl Hrest]; subst.
  destruct lines as [|l2 lines].
  - cbn [join_lines]. apply split_lines_single. exact Hl.
  - change (join_lines (l :: l2 :: lines))
      with (l +:+ nl +:+ join_lines (l2 :: lines)).
    rewrite split_lines_app by exact Hl.
    rewrite IH; [reflexivity|discriminate|exact Hrest].
Qed.

Section description_claims.
Context (utils : Utils).

(** A successful registration stores the computed description in the
    command it creates, which is the one appended: to the module's
    [__commands] without a parent, to the parent's sub-commands with
    one. *)
Lemma command_stores_description options func st st' :
  command utils options func st = (Ok tt, st') ->
  exists cmd,
    description cmd = command_description options func
    /\ function cmd = func
    /\ match opt_parent options with
       | None =>
           exists m commands,
             modules st' !! __module__ func = Some m
             /\ __commands m = CmdList (commands ++ [cmd])
       | Some p =>
           (sub_commands p < length (heap st))%nat ->
           deref (heap st') (sub_commands p)
           = deref (heap st) (sub_commands p) ++ [cmd]
       end.
Proof.
  unfold command, bindM, get_state.
  destruct (modules st !! __module__ func) as [m|] eqn:Hm; cbn [from_option].
  - set (name := from_option id (__name__ func) (opt_name options)).
    destruct (__commands m) as [| |l] eqn:Hc.
    + cbn [existsb]. unfold new_list, list_append, set_commands, emit, ret.
      destruct (opt_parent options) as [p|];
        cbn [modules heap plugins trace]; rewrite Hm;
        intros H; injection H as <-; cbn [modules heap].
      * eexists. split; [|split].
        3: { intros Hl. apply deref_append. exact Hl. }
        all: reflexivity.
      * eexists. split; [|split].
        3: { eexists. exists []. rewrite lookup_insert_eq.
             split; reflexivity. }
        all: reflexivity.
    + unfold raise. intros H. discriminate H.
    + destruct (existsb _ l).
      * unfold raise. intros H. discriminate H.
      * unfold new_list, list_append, set_commands, emit, ret.
        destruct (opt_parent options) as [p|];
          cbn [modules heap plugins trace]; rewrite Hm;
          intros H; injection H as <-; cbn [modules heap].
        -- eexists. split; [|split].
           3: { intros Hl. apply deref_append. exact Hl. }
           all: reflexivity.
        -- eexists. split; [|split].
           3: { eexists. exists l. rewrite lookup_insert_eq.
                split; reflexivity. }
           all: reflexivity.
  - cbn [existsb]. unfold new_list, list_append, set_commands, emit, ret.
    destruct (opt_parent options) as [p|];
      cbn [modules heap plugins trace]; rewrite Hm;
      intros H; discriminate H.
Qed.

(** C9. For a command registered without an explicit description, whose
    handler has a docstring, the description is the docstring rendered
    line by line: a line that ends with the continuation marker keeps a
    line break and loses the marker, a blank line becomes a paragraph
    break, and every other line is followed by a single space.  Every
    successful registration stores exactly that text in the command it
    registers for the handler: the command appended to the module's
    top-level commands when there is no parent, and the command appended
    to the parent's sub-commands when there is one. *)
Theorem docstring_description_rendered
    (options : Options) (func : Handler) (lines : list string) :
  opt_description options = None ->
  __doc__ func = Some (join_lines lines) ->
  join_lines lines <> "" ->
  Forall (fun l => single_line l = true) lines ->
  command_description options func = render_lines lines
  /\ forall st st',
       command utils options func st = (Ok tt, st') ->
       exists cmd,
         description cmd = render_lines lines
         /\ function cmd = func
         /\ match opt_parent options with
            | None =>
                exists m commands,
                  modules st' !! __module__ func = Some m
                  /\ __commands m = CmdList (commands ++ [cmd])
            | Some p =>
                (sub_commands p < length (heap st))%nat ->
                deref (heap st') (sub_commands p)
                = deref (heap st) (sub_commands p) ++ [cmd]
            end.
Proof.
  intros Hopt Hdoc Hne Hall.
  assert (Hdesc : command_description options func = render_lines lines).
  { unfold command_description, or_else. rewrite Hopt, Hdoc.
    destruct (String.eqb_spec (join_lines lines) "") as [E|_]; [congruence|].
    rewrite String.eqb_refl. unfold format_docstring.
    rewrite split_join_lines; [|intros ->; apply Hne; reflexivity|exact Hall].
    rewrite fold_format_line. reflexivity. }
  split; [exact Hdesc|].
  intros st st' Hcmd.
  destruct (command_stores_description options func st st' Hcmd)
    as (cmd & Hd & Hf & Hwhere).
  exists cmd. rewrite <- Hdesc. auto.
Qed.

End description_claims.

Lemma docstring_description_rendered_witness :
  command_description no_options
    (example.handler "wordsearch_"
       (Some (join_lines [" Start a wordsearch!  /"; ""; "   Enter any word. "]))
       [])
  = "Start a wordsearch!" +:+ nl +:+ nl +:+ nl +:+ "Enter any word. "
  /\ exists cmd,
       description cmd = "Reloads a plugin. "
       /\ deref (heap example.st2) (sub_commands example.plugin_command)
          = [cmd].
Proof.
  split.
  - apply (docstring_description_rendered example.the_utils no_options
             (example.handler "wordsearch_"
                (Some (join_lines [" Start a wordsearch!  /"; "";
                                   "   Enter any word. "])) [])
             [" Start a wordsearch!  /"; ""; "   Enter any word. "]).
    + reflexivity.
    + reflexivity.
    + discriminate.
    + repeat constructor.
  - destruct (docstring_description_rendered example.the_utils
                (example.under example.plugin_command) example.reload
                [" Reloads a plugin. "])
      as [_ Hreg].
    + reflexivity.
    + reflexivity.
    + discriminate.
    + repeat constructor.
    + destruct (Hreg example.st1 example.st2 eq_refl)
        as (cmd & Hdesc & _ & Happ).
      exists cmd. split; [exact Hdesc|].
      apply Happ. vm_compute. lia.
Defined.

(** A handler without docstring, registered without description, is
    described as undocumented. *)
Example undocumented_handler :
  command_description no_options example.echo = "Undocumented.".
Proof. reflexivity. Qed.

(** ** The dispatcher *)

Lemma only_logs_refl (st : State) : only_logs st st.
Proof.
  unfold only_logs. repeat split. exists []. rewrite app_nil_r. reflexivity.
Qed.

Lemma only_logs_trans (st1 st2 st3 : State) :
  only_logs st1 st2 -> only_logs st2 st3 -> only_logs st1 st3.
Proof.
  intros (Hm & Hh & Hp & ev1 & Ht) (Hm' & Hh' & Hp' & ev2 & Ht').
  unfold only_logs. repeat split; try congruence.
  exists (ev1 ++ ev2). rewrite Ht', Ht, app_assoc. reflexivity.
Qed.

Lemma only_logs_elem (st st' : State) (ev : event) :
  only_logs st st' -> ev ∈ trace st -> ev ∈ trace st'.
Proof.
  intros (_ & _ & _ & evs & Ht) Hin. rewrite Ht. apply elem_of_app. left. exact Hin.
Qed.

Lemma bindM_inv {A B} (c : M A) (k : A -> M B) st r st' :
  bindM c k st = (r, st') ->
  (exists a st1, c st = (Ok a, st1) /\ k a st1 = (r, st'))
  \/ (exists e, c st = (Raise e, st') /\ r = Raise e).
Proof.
  unfold bindM. destruct (c st) as [[a|e] st1]; intros H.
  - left. exists a, st1. split; [reflexivity|exact H].
  - right. injection H as <- <-. exists e. split; reflexivity.
Qed.

Lemma appends_only_ret {A} (a : A) : appends_only (ret a).
Proof. intros st r st' H. injection H as _ <-. apply only_logs_refl. Qed.

Lemma appends_only_raise {A} (e : exn) : appends_only (@raise A e).
Proof. intros st r st' H. injection H as _ <-. apply only_logs_refl. Qed.

Lemma appends_only_get_state : appends_only get_state.
Proof. intros st r st' H. injection H as _ <-. apply only_logs_refl. Qed.

Lemma appends_only_get_module ref : appends_only (get_module ref).
Proof.
  intros st r st' H. unfold get_module in H.
  destruct (modules st !! ref); injection H as _ <-; apply only_logs_refl.
Qed.

Lemma appends_only_all_values : appends_only all_values.
Proof. intros st r st' H. injection H as _ <-. apply only_logs_refl. Qed.

Lemma appends_only_emit ev : appends_only (emit ev).
Proof.
  intros st r st' H. injection H as _ <-. unfold only_logs. cbn.
  repeat split. exists [ev]. reflexivity.
Qed.

Lemma appends_only_bind {A B} (c : M A) (k : A -> M B) :
  appends_only c -> (forall a, appends_only (k a)) -> appends_only (bindM c k).
Proof.
  intros Hc Hk st r st' H.
  destruct (bindM_inv c k st r st' H) as [(a & st1 & H1 & H2)|(e & H1 & _)].
  - eapply only_logs_trans; [eapply Hc; exact H1|eapply Hk; exact H2].
  - eapply Hc; exact H1.
Qed.

Create HintDb dispatch.

#[local] Hint Resolve appends_only_ret appends_only_raise appends_only_get_state
  appends_only_get_module appends_only_all_values appends_only_emit : dispatch.

Section dispatch_facts.
Context (utils : Utils).
Context (get_command : module_obj -> string -> option Command).
Context (client_user : string).
Context (call : Handler -> Message -> list pyval -> gmap string pyval
                -> res unit).
Context (time_elapsed : State -> string).

Lemma appends_only_log_message message prefix :
  appends_only (log_message message prefix).
Proof. apply appends_only_emit. Qed.

Lemma appends_only_builtin_cmd_help message cmd :
  appends_only (builtin_cmd_help message cmd).
Proof.
  unfold builtin_cmd_help. apply appends_only_bind; [auto with dispatch|].
  intros st. destruct (plugins st !! "builtin"); [|auto with dispatch].
  apply appends_only_bind; [auto with dispatch|]. intros m.
  destruct (cmd_help m) as [help|]; [|auto with dispatch].
  destruct (help message cmd); auto with dispatch.
Qed.

Lemma appends_only_parse_command command cmd cmd_args message :
  appends_only (parse_command utils command cmd cmd_args message).
Proof.
  unfold parse_command. apply appends_only_bind; [auto with dispatch|].
  intros st.
  destruct (get_sub_command (heap st) command cmd_args) as [[c args] start].
  destruct (parse_command_args utils c args start message)
    as [[[a k] complete]|e]; [|auto with dispatch].
  destruct complete; cbn [negb]; [auto with dispatch|].
  apply appends_only_bind; [apply appends_only_log_message|]. intros _.
  apply appends_only_bind; [|auto with dispatch].
  destruct (or_else (error c) None).
  - auto with dispatch.
  - apply appends_only_builtin_cmd_help.
Qed.

(** The part of the loop body that handles a command. *)
Lemma appends_only_command_part cmd cmd_args message plugin :
  appends_only
    (if negb (String.eqb cmd "") then
       match get_command plugin cmd with
       | Some command =>
           r <- parse_command utils command cmd cmd_args message ;;
           match r with
           | (Some command, args, kwargs) =>
               log_message message "" ;;;
               match call (function command) message args kwargs with
               | Raise e => raise e
               | Ok _ =>
                   emit (CreateTask
                           (HandlerTask (function command) message args
                              kwargs)) ;;;
                   moment <- get_state ;;
                   emit (Log DEBUG ("Time spent parsing comand: "
                                    +:+ time_elapsed moment))
               end
           | (None, _, _) => ret tt
           end
       | None => ret tt
       end
     else ret tt).
Proof.
  destruct (negb (String.eqb cmd "")); [|auto with dispatch].
  destruct (get_command plugin cmd) as [command|]; [|auto with dispatch].
  apply appends_only_bind; [apply appends_only_parse_command|].
  intros [[[c|] a] k]; [|auto with dispatch].
  apply appends_only_bind; [apply appends_only_log_message|]. intros _.
  destruct (call (function c) message a k); [|auto with dispatch].
  apply appends_only_bind; [auto with dispatch|]. intros _.
  apply appends_only_bind; auto with dispatch.
Qed.

Lemma appends_only_handle_plugin cmd cmd_args message ref :
  appends_only
    (handle_plugin utils get_command call time_elapsed cmd cmd_args message
       ref).
Proof.
  unfold handle_plugin. apply appends_only_bind; [auto with dispatch|].
  intros plugin. apply appends_only_bind; [apply appends_only_command_part|].
  intros _. destruct (plugins.on_message plugin); auto with dispatch.
Qed.

Lemma appends_only_for_plugins cmd cmd_args message refs :
  appends_only
    (for_plugins utils get_command call time_elapsed cmd cmd_args message
       refs).
Proof.
  induction refs as [|ref refs IH]; cbn [for_plugins]; [auto with dispatch|].
  apply appends_only_bind; [apply appends_only_handle_plugin|].
  intros _. exact IH.
Qed.

(** A turn of the loop that ends normally has scheduled the plugin's hook. *)
Lemma handle_plugin_schedules cmd cmd_args message ref st st' m hook :
  handle_plugin utils get_command call time_elapsed cmd cmd_args message ref
    st = (Ok tt, st') ->
  modules st !! ref = Some m ->
  plugins.on_message m = Some hook ->
  CreateTask (PluginMessageTask hook message cmd_args) ∈ trace st'.
Proof.
  intros H Hm Hhook. unfold handle_plugin in H.
  apply bindM_inv in H as [(plugin & st1 & H1 & H2)|(e & _ & He)];
    [|discriminate He].
  unfold get_module in H1. rewrite Hm in H1. injection H1 as <- <-.
  apply bindM_inv in H2 as [(u & st2 & _ & H3)|(e & _ & He)];
    [|discriminate He].
  rewrite Hhook in H3. injection H3 as <-. cbn [trace].
  apply elem_of_app. right. left.
Qed.

Lemma for_plugins_schedules cmd cmd_args message refs :
  forall st st' ref m hook,
    for_plugins utils get_command call time_elapsed cmd cmd_args message refs
      st = (Ok tt, st') ->
    ref ∈ refs ->
    modules st !! ref = Some m ->
    plugins.on_message m = Some hook ->
    CreateTask (PluginMessageTask hook message cmd_args) ∈ trace st'.
Proof.
  induction refs as [|r refs IH]; intros st st' ref m hook H Hin Hm Hhook.
  - inversion Hin.
  - cbn [for_plugins] in H.
    apply bindM_inv in H as [([] & st1 & H1 & H2)|(e & _ & He)];
      [|discriminate He].
    pose proof (appends_only_handle_plugin _ _ _ _ _ _ _ H1) as Hlog1.
    apply elem_of_cons in Hin as [->|Hin].
    + eapply only_logs_elem.
      * eapply appends_only_for_plugins. exact H2.
      * eapply handle_plugin_schedules; eauto.
    + eapply IH; eauto. destruct Hlog1 as (Hmod & _). rewrite Hmod. exact Hm.
Qed.

(** A message that is not a command makes no turn of the loop raise. *)
Lemma for_plugins_plain_returns cmd_args message refs :
  forall st,
    (forall ref, ref ∈ refs -> is_Some (modules st !! ref)) ->
    exists st',
      for_plugins utils get_command call time_elapsed "" cmd_args message refs
        st = (Ok tt, st').
Proof.
  induction refs as [|r refs IH]; intros st Hwf; cbn [for_plugins].
  - eexists. reflexivity.
  - destruct (Hwf r) as [m Hm]; [left|].
    assert (H1 : exists st1,
               handle_plugin utils get_command call time_elapsed "" cmd_args
                 message r st
               = (Ok tt, st1) /\ modules st1 = modules st).
    { unfold handle_plugin, bindM, get_module. rewrite Hm. cbn.
      destruct (plugins.on_message m); eexists; split; reflexivity. }
    destruct H1 as (st1 & H1 & Hmod).
    destruct (IH st1) as [st' H2].
    { intros ref Hin. rewrite Hmod. apply Hwf. right. exact Hin. }
    exists st'. unfold bindM. rewrite H1. exact H2.
Qed.

(** C6, as the code has it. For a message that is not the bot's own and
    has content, when dispatch ends without an exception every loaded
    plugin with a generic-message hook has had that hook scheduled as a
    task with the tokenized arguments, whether or not the message matched
    a command; a message whose first token does not carry the command
    prefix always ends that way; and the scheduled task, when the hook
    returns a truthy value, logs the message through the routine that
    logs command invocations, with the prefix ["... "]. *)
Theorem on_message_schedules_hooks (message : Message) (st : State) :
  author message <> client_user ->
  content message <> "" ->
  (forall st' name ref m hook,
      on_message utils get_command client_user call time_elapsed message st
      = (Ok tt, st') ->
      plugins st !! name = Some ref ->
      modules st !! ref = Some m ->
      plugins.on_message m = Some hook ->
      CreateTask
        (PluginMessageTask hook message (split utils (content message) None))
      ∈ trace st')
  /\ (forall first rest,
        plugins_loaded st ->
        split utils (content message) None = first :: rest ->
        startswith (command_prefix utils) first
          && (1 <? String.length first)%nat = false ->
        exists st',
          on_message utils get_command client_user call time_elapsed message
            st = (Ok tt, st'))
  /\ (forall hook args v st0,
        hook message args = Ok v ->
        truthy v = true ->
        on_plugin_message hook message args st0
        = log_message message "... " st0).
Proof.
  intros Hauthor Hcontent.
  apply String.eqb_neq in Hauthor. apply String.eqb_neq in Hcontent.
  split; [|split].
  - intros st' name ref m hook H Hname Hm Hhook.
    unfold on_message in H. rewrite Hauthor, Hcontent in H.
    destruct (getitem (split utils (content message) None) 0) as [first|e];
      [|discriminate H].
    apply bindM_inv in H as [(values & st1 & H1 & H2)|(e & _ & He)];
      [|discriminate He].
    injection H1 as <- <-.
    eapply for_plugins_schedules; eauto.
    apply list_elem_of_fmap. exists (name, ref). split; [reflexivity|].
    apply elem_of_map_to_list. exact Hname.
  - intros first rest Hwf Hsplit Hplain.
    unfold on_message. rewrite Hauthor, Hcontent, Hsplit.
    cbn [getitem]. change (getitem (first :: rest) 0) with (Ok first).
    cbv iota. rewrite Hplain. unfold bindM, all_values.
    apply for_plugins_plain_returns.
    intros ref Hin. apply list_elem_of_fmap in Hin as [[name ref'] [-> Hin]].
    apply elem_of_map_to_list in Hin. eapply Hwf. exact Hin.
  - intros hook args v st0 Hv Ht. unfold on_plugin_message.
    rewrite Hv, Ht. reflexivity.
Qed.

End dispatch_facts.

(** *** The dispatcher on concrete messages *)

Lemma on_message_schedules_hooks_witness :
  CreateTask
    (PluginMessageTask example.greeter_hook
       (example.message "ann" "hello there") ["hello"; "there"])
  ∈ trace (example.run
             (on_message example.the_utils example.lookup "bot"
                call_generator example.clock
                (example.message "ann" "hello there"))
             example.st_greeter).
Proof.
  destruct (on_message_schedules_hooks example.the_utils example.lookup "bot"
              call_generator example.clock
              (example.message "ann" "hello there") example.st_greeter)
    as [Hsched _].
  - discriminate.
  - discriminate.
  - apply (Hsched _ "greeter" "plugins.greeter" example.greeter
             example.greeter_hook); reflexivity.
Defined.

(** C6 as stated fails: on a message written by the bot itself the
    dispatcher returns at once, and the hook of the loaded plugin is not
    scheduled. *)
Lemma own_message_counterexample :
  plugins example.st_greeter !! "greeter" = Some "plugins.greeter"
  /\ modules example.st_greeter !! "plugins.greeter" = Some example.greeter
  /\ plugins.on_message example.greeter = Some example.greeter_hook
  /\ ~ CreateTask
         (PluginMessageTask example.greeter_hook
            (example.message "bot" "hello there") ["hello"; "there"])
       ∈ trace (example.run
                  (on_message example.the_utils example.lookup "bot"
                call_generator example.clock
                     (example.message "bot" "hello there"))
                  example.st_greeter).
Proof.
  repeat split; try reflexivity.
  change (trace (example.run
                   (on_message example.the_utils example.lookup "bot"
                call_generator example.clock
                      (example.message "bot" "hello there"))
                   example.st_greeter)) with (@nil event).
  apply not_elem_of_nil.
Qed.

(** An exception of the binder ends the dispatch before the hook of the
    plugin is scheduled. *)
Example binder_exception_ends_dispatch :
  on_message example.the_utils example.lookup "bot"
                call_generator example.clock
    (example.message "ann" "!check tok") example.st_checker
  = (Raise annotation_error, example.st_checker).
Proof. reflexivity. Qed.

(** After [!plugin math reload] resolved to [reload], the binder reads the
    token after [math]. *)
Example reload_binds_after_math :
  parse_command_args example.the_utils example.reload_command
    ["math"; "reload"] 1 (example.message "ann" "!plugin math reload")
  = Ok ([PyStr "reload"], ∅, true).
Proof. reflexivity. Qed.

(** * More of the binder *)

Section binder_more.
Context (utils : Utils).

(** The loop over required positional parameters, when it ends complete:
    what it has bound. *)
Lemma required_positional_loop_values kw c0 toks start msg params :
  forall ps s (j : nat) a k,
    index s = Z.of_nat (S j) ->
    has_pos s = false ->
    (len params - 2)%Z = Z.of_nat (j + length ps) ->
    Forall required_positional ps ->
    finish params (for_parameters utils kw (c0 :: toks) start msg s ps)
    = Ok (a, k, true) ->
    k = kwargs s
    /\ exists vs,
         a = args s ++ vs
         /\ length vs = length ps
         /\ forall (i : nat) p t,
              ps !! i = Some p ->
              toks !! (j + i)%nat = Some t ->
              exists v,
                parse_annotation utils p t (Z.of_nat (j + i) + 1 + start) msg
                = Ok v
                /\ is_None v = false /\ vs !! i = Some v.
Proof.
  induction ps as [|p ps IH]; intros s j a k Hidx Hpos Hn Hreq Hfin.
  - cbn [for_parameters finish] in Hfin. unfold after_loop in Hfin.
    injection Hfin as <- <- _. split; [reflexivity|].
    exists []. rewrite app_nil_r. repeat split.
    intros i p t Hp. destruct i; discriminate Hp.
  - inversion Hreq as [|? ? [Hkind Hdef] Hreq']; subst.
    cbn [for_parameters] in Hfin. unfold loop_body in Hfin.
    cbn [index set_index args kwargs has_pos num_pos_args] in Hfin.
    destruct (Z.eqb_spec (index s + 1) 0) as [E|_]; [lia|].
    destruct (Z.eqb_spec (index s + 1) 1) as [E|_]; [lia|].
    rewrite len_cons in Hfin. unfold len in Hfin.
    destruct (Z.leb_spec (index s + 1) (Z.of_nat (length toks) + 1)) as [Hle|Hgt].
    + destruct (lookup_lt_is_Some_2 toks j) as [tok Htok]; [lia|].
      replace (index s + 1 - 1)%Z with (Z.of_nat (S j)) in Hfin by lia.
      rewrite (getitem_nat (c0 :: toks) (S j) tok) in Hfin by exact Htok.
      rewrite Hkind in Hfin.
      replace (Z.of_nat (S j) + start)%Z with (Z.of_nat j + 1 + start)%Z
        in Hfin by lia.
      destruct (parse_annotation utils p tok (Z.of_nat j + 1 + start) msg)
        as [v|e] eqn:Hanno; [|discriminate Hfin].
      destruct (is_None v) eqn:Hv; cbn [negb] in Hfin.
      { rewrite Hdef in Hfin. discriminate Hfin. }
      apply (IH _ (S j)) in Hfin;
        cbn [index append_arg set_index has_pos length] in *;
        try assumption; try lia.
      destruct Hfin as (Hk & vs & Ha & Hlen & Hall).
      split; [exact Hk|]. exists (v :: vs).
      cbn [args append_arg set_index] in Ha. rewrite <- app_assoc in Ha.
      split; [exact Ha|]. split; [cbn; lia|].
      intros i q t Hq Ht. destruct i as [|i].
      * cbn in Hq. injection Hq as <-. rewrite Nat.add_0_r in *.
        rewrite Htok in Ht. injection Ht as <-.
        exists v. repeat split; assumption.
      * cbn in Hq. replace (j + S i)%nat with (S j + i)%nat in * by lia.
        destruct (Hall i q t Hq Ht) as (w & Hw & Hnone & Hvs).
        exists w. repeat split; assumption.
    + unfold no_argument in Hfin. rewrite Hdef in Hfin.
      cbn [finish] in Hfin. unfold after_loop in Hfin.
      cbn [index set_index has_pos args kwargs] in Hfin. rewrite Hpos in Hfin.
      injection Hfin as _ _ H. apply Z.eqb_eq in H. cbn [length] in Hn. lia.
Qed.

(** X1. When a handler whose parameters after the two infrastructure ones
    are all positional and without default is bound complete, there are
    no keyword arguments and the positional arguments are, in order, the
    values that the annotations yield for the first tokens after the
    command token. *)
Theorem required_positional_binds_values
    (command : Command) (pc pm : parameter) (ps : list parameter)
    (c0 : string) (toks : list string) (start : Z) (msg : Message)
    (a : list pyval) (k : gmap string pyval) :
  signature (function command) = pc :: pm :: ps ->
  is_object DiscordClient (annotation pc) = true ->
  is_object DiscordMessage (annotation pm) = true ->
  Forall required_positional ps ->
  parse_command_args utils command (c0 :: toks) start msg = Ok (a, k, true) ->
  k = ∅
  /\ length a = length ps
  /\ forall (i : nat) p t,
       ps !! i = Some p ->
       toks !! i = Some t ->
       exists v,
         parse_annotation utils p t (Z.of_nat i + 1 + start) msg = Ok v
         /\ is_None v = false /\ a !! i = Some v.
Proof.
  intros Hsig Hc Hm Hreq Hres. unfold parse_command_args in Hres.
  rewrite Hsig in Hres. rewrite infrastructure_parameters in Hres by assumption.
  apply (required_positional_loop_values _ c0 toks start msg _ ps _ 0%nat)
    in Hres; cbn [index has_pos]; try reflexivity; try assumption.
  2: { rewrite !len_cons. unfold len. cbn. lia. }
  destruct Hres as (Hk & vs & Ha & Hlen & Hall). cbn [args kwargs] in *.
  subst a. split; [exact Hk|]. split; [exact Hlen|]. exact Hall.
Qed.

(** The loop over positional parameters that all have a default. *)
Lemma optional_positional_loop kw c0 toks start msg params :
  forall ps s (j : nat),
    index s = Z.of_nat (S j) ->
    has_pos s = false ->
    (len params - 2)%Z = Z.of_nat (j + length ps) ->
    Forall (fun p => kind p = POSITIONAL_OR_KEYWORD /\ is_Some (default p)) ps ->
    Forall (returns utils msg) ps ->
    exists vs,
      finish params (for_parameters utils kw (c0 :: toks) start msg s ps)
      = Ok (args s ++ vs, kwargs s, true)
      /\ length vs = length ps
      /\ forall (i : nat) p,
           ps !! i = Some p ->
           exists v,
             vs !! i = Some v
             /\ (default p = Some v
                 \/ exists t,
                      toks !! (j + i)%nat = Some t
                      /\ parse_annotation utils p t
                           (Z.of_nat (j + i) + 1 + start) msg = Ok v
                      /\ is_None v = false).
Proof.
  induction ps as [|p ps IH]; intros s j Hidx Hpos Hn Hopt Hok.
  - exists []. cbn [for_parameters finish]. unfold after_loop. rewrite Hpos.
    rewrite app_nil_r. split.
    + do 2 f_equal. apply Z.eqb_eq. cbn [length] in Hn. lia.
    + split; [reflexivity|]. intros i p Hp. destruct i; discriminate Hp.
  - inversion Hopt as [|? ? [Hkind [d Hdef]] Hopt']; subst.
    inversion Hok as [|? ? Hp Hok']; subst.
    cbn [for_parameters]. unfold loop_body.
    cbn [index set_index args kwargs has_pos num_pos_args].
    destruct (Z.eqb_spec (index s + 1) 0) as [E|_]; [lia|].
    destruct (Z.eqb_spec (index s + 1) 1) as [E|_]; [lia|].
    rewrite len_cons. unfold len.
    assert (Hstep : forall v,
              (default p = Some v
               \/ exists t, toks !! j = Some t
                    /\ parse_annotation utils p t (Z.of_nat j + 1 + start) msg
                       = Ok v
                    /\ is_None v = false) ->
              exists vs,
                finish params
                  (for_parameters utils kw (c0 :: toks) start msg
                     (append_arg v (set_index (index s + 1)%Z s)) ps)
                = Ok (args s ++ vs, kwargs s, true)
                /\ length vs = length (p :: ps)
                /\ forall (i : nat) q,
                     (p :: ps) !! i = Some q ->
                     exists w,
                       vs !! i = Some w
                       /\ (default q = Some w
                           \/ exists t,
                                toks !! (j + i)%nat = Some t
                                /\ parse_annotation utils q t
                                     (Z.of_nat (j + i) + 1 + start) msg = Ok w
                                /\ is_None w = false)).
    { intros v Hv.
      destruct (IH (append_arg v (set_index (index s + 1)%Z s)) (S j))
        as (vs & Hfin & Hlen & Hall);
        cbn [index append_arg set_index has_pos length] in *;
        try assumption; try lia.
      exists (v :: vs). cbn [args append_arg set_index kwargs] in Hfin.
      rewrite <- app_assoc in Hfin. split; [exact Hfin|].
      split; [cbn; lia|].
      intros i q Hq. destruct i as [|i].
      - cbn in Hq. injection Hq as <-. exists v. split; [reflexivity|].
        rewrite Nat.add_0_r. exact Hv.
      - cbn in Hq. destruct (Hall i q Hq) as (w & Hw & Hsrc).
        exists w. split; [exact Hw|].
        replace (j + S i)%nat with (S j + i)%nat by lia. exact Hsrc. }
    destruct (Z.leb_spec (index s + 1) (Z.of_nat (length toks) + 1)) as [Hle|Hgt].
    + destruct (lookup_lt_is_Some_2 toks j) as [tok Htok]; [lia|].
      replace (index s + 1 - 1)%Z with (Z.of_nat (S j)) by lia.
      rewrite (getitem_nat (c0 :: toks) (S j) tok) by exact Htok.
      rewrite Hkind.
      replace (Z.of_nat (S j) + start)%Z with (Z.of_nat j + 1 + start)%Z by lia.
      destruct (Hp tok (Z.of_nat j + 1 + start)%Z) as [v Hanno].
      rewrite Hanno. destruct (is_None v) eqn:Hv; cbn [negb].
      * rewrite Hdef. apply Hstep. left. exact Hdef.
      * apply Hstep. right. exists tok. repeat split; assumption.
    + unfold no_argument. rewrite Hdef, Hkind. apply Hstep. left. exact Hdef.
Qed.

(** X2. A handler whose parameters after the two infrastructure ones are
    all positional with a default is bound complete for every token list,
    as long as no annotation raises: it gets one positional argument per
    parameter, each being the parameter's default or the value that its
    annotation yields for its token. *)
Theorem optional_positional_always_complete
    (command : Command) (pc pm : parameter) (ps : list parameter)
    (c0 : string) (toks : list string) (start : Z) (msg : Message) :
  signature (function command) = pc :: pm :: ps ->
  is_object DiscordClient (annotation pc) = true ->
  is_object DiscordMessage (annotation pm) = true ->
  Forall (fun p => kind p = POSITIONAL_OR_KEYWORD /\ is_Some (default p)) ps ->
  Forall (returns utils msg) ps ->
  exists a,
    parse_command_args utils command (c0 :: toks) start msg = Ok (a, ∅, true)
    /\ length a = length ps
    /\ forall (i : nat) p,
         ps !! i = Some p ->
         exists v,
           a !! i = Some v
           /\ (default p = Some v
               \/ exists t,
                    toks !! i = Some t
                    /\ parse_annotation utils p t (Z.of_nat i + 1 + start) msg
                       = Ok v
                    /\ is_None v = false).
Proof.
  intros Hsig Hc Hm Hopt Hok. unfold parse_command_args. rewrite Hsig.
  rewrite infrastructure_parameters by assumption.
  destruct (optional_positional_loop
              (count_keyword_only (pc :: pm :: ps)) c0 toks start msg
              (pc :: pm :: ps) ps (mk_locals [] ∅ 1 false 0) 0%nat)
    as (vs & Hfin & Hlen & Hall); cbn [index has_pos]; try reflexivity;
    try assumption.
  { rewrite !len_cons. unfold len. cbn. lia. }
  exists vs. split; [exact Hfin|]. split; [exact Hlen|]. exact Hall.
Qed.

End binder_more.

Section binder_errors.
Context (utils : Utils).

(** X3. A handler whose first parameter is not annotated
    [discord.Client], or whose second is not annotated [discord.Message],
    is refused with an exception for every token list: it can never be
    bound. *)
Theorem wrong_infrastructure_annotation_raises
    (command : Command) (pc pm : parameter) (rest : list parameter)
    (cmd_args : list string) (start : Z) (msg : Message) :
  signature (function command) = pc :: pm :: rest ->
  is_object DiscordClient (annotation pc)
  && is_object DiscordMessage (annotation pm) = false ->
  exists e,
    parse_command_args utils command cmd_args start msg = Raise e
    /\ signature_error e.
Proof.
  intros Hsig Hbad. unfold parse_command_args. rewrite Hsig.
  cbn [for_parameters]. unfold loop_body at 1. cbn.
  destruct (is_object DiscordClient (annotation pc)).
  - unfold loop_body at 1. cbn. cbn in Hbad. rewrite Hbad. cbn.
    eexists. split; [reflexivity|]. right. reflexivity.
  - cbn. eexists. split; [reflexivity|]. left. reflexivity.
Qed.

Lemma var_positional_loop_raises p idx msg :
  forall toks acc n,
    match var_positional_loop utils p toks idx msg acc n with
    | Ok (_, n') => (n <= n')%Z
    | Raise e => exists tok, parse_annotation utils p tok idx msg = Raise e
    end.
Proof.
  induction toks as [|tok toks IH]; intros acc n; cbn [var_positional_loop].
  - lia.
  - destruct (parse_annotation utils p tok idx msg) as [v|e] eqn:E.
    + destruct (is_None v).
      * apply IH.
      * specialize (IH (acc ++ [v]) (n + 1)%Z).
        destruct (var_positional_loop utils p toks idx msg (acc ++ [v]) (n + 1))
          as [[a n']|e]; [lia|exact IH].
    + exists tok. exact E.
Qed.

(** One turn of the loop keeps the cursor and the counter in range, and
    raises only what the signature check or the annotation raises: the
    token it reads is always there. *)
Lemma loop_body_in_range kw cmd_args start msg s p :
  (-1 <= index s)%Z ->
  (0 <= num_pos_args s)%Z ->
  match loop_body utils kw cmd_args start msg s p with
  | Next s' => (-1 <= index s')%Z /\ (0 <= num_pos_args s')%Z
  | Throw e =>
      signature_error e
      \/ exists tok idx, parse_annotation utils p tok idx msg = Raise e
  | _ => True
  end.
Proof.
  intros Hidx Hn. unfold loop_body.
  cbn [index set_index args kwargs has_pos num_pos_args].
  destruct (Z.eqb_spec (index s + 1) 0) as [E0|E0].
  { destruct (is_object DiscordClient (annotation p)); cbn; [lia|].
    left. left. reflexivity. }
  destruct (Z.eqb_spec (index s + 1) 1) as [E1|E1].
  { destruct (is_object DiscordMessage (annotation p)); cbn; [lia|].
    left. right. reflexivity. }
  destruct (Z.leb_spec (index s + 1) (len cmd_args)) as [Hle|Hgt].
  - destruct (getitem_in_range cmd_args (index s + 1 - 1)) as (tok & _ & Htok);
      [lia|].
    rewrite Htok. destruct (kind p); cbn; try lia.
    + destruct (parse_annotation utils p tok (index s + 1 - 1 + start) msg)
        as [v|e] eqn:E.
      * destruct (is_None v); cbn; [destruct (default p); cbn; [lia|exact I]|lia].
      * right. eauto.
    + pose proof (var_positional_loop_raises p (index s + 1 + start)%Z msg
                    (slice cmd_args (index s + 1 - 1) (- kw)) (args s)
                    (num_pos_args s)) as H.
      destruct (var_positional_loop utils p
                  (slice cmd_args (index s + 1 - 1) (- kw))
                  (index s + 1 + start) msg (args s) (num_pos_args s))
        as [[a n]|e].
      * cbn. destruct (Z.eqb_spec n 0); lia.
      * right. destruct H as [tok' H]. eauto.
    + destruct (parse_annotation utils p tok (index s + 1 - 1 + start) msg)
        as [v|e] eqn:E.
      * destruct (is_None v); cbn; [destruct (default p); cbn; [lia|exact I]|lia].
      * right. eauto.
  - unfold no_argument. destruct (default p); [|exact I].
    destruct (kind p); cbn; lia.
Qed.

Lemma for_parameters_raises kw cmd_args start msg :
  forall params s e,
    (-1 <= index s)%Z ->
    (0 <= num_pos_args s)%Z ->
    for_parameters utils kw cmd_args start msg s params = Throw e ->
    signature_error e
    \/ exists p tok idx,
         p ∈ params /\ parse_annotation utils p tok idx msg = Raise e.
Proof.
  induction params as [|p params IH]; intros s e Hidx Hn H;
    cbn [for_parameters] in H; [discriminate H|].
  pose proof (loop_body_in_range kw cmd_args start msg s p Hidx Hn) as Hb.
  destruct (loop_body utils kw cmd_args start msg s p) as [s'| | |e'];
    try discriminate H.
  - destruct Hb as [Hi Hk]. destruct (IH s' e Hi Hk H) as [Hs|(q & t & i & Hq & Hr)].
    + left. exact Hs.
    + right. exists q, t, i. split; [right; exact Hq|exact Hr].
  - injection H as <-. destruct Hb as [Hs|(t & i & Hr)].
    + left. exact Hs.
    + right. exists p, t, i. split; [left|exact Hr].
Qed.

(** X4. Whatever the signature and the tokens, an exception that leaves
    the binder is one of the two signature errors or was raised by the
    annotation of one of the parameters: reading [cmd_args[index - 1]]
    never goes out of range. *)
Theorem binder_raises_only_from_annotations
    (command : Command) (cmd_args : list string) (start : Z) (msg : Message)
    (e : exn) :
  parse_command_args utils command cmd_args start msg = Raise e ->
  signature_error e
  \/ exists p tok idx,
       p ∈ signature (function command)
       /\ parse_annotation utils p tok idx msg = Raise e.
Proof.
  intros H. unfold parse_command_args in H.
  destruct (for_parameters utils
              (count_keyword_only (signature (function command))) cmd_args
              start msg init_locals (signature (function command)))
    as [s| | |e'] eqn:E; try discriminate H.
  injection H as <-.
  apply (for_parameters_raises _ _ _ _ _ _ _) in E; cbn; try lia.
  exact E.
Qed.

End binder_errors.

Lemma required_positional_binds_values_witness :
  (∅ : gmap string pyval) = ∅
  /\ length [PyStr "a"] = 1%nat
  /\ forall (i : nat) p t,
       [mk_param "text" POSITIONAL_OR_KEYWORD example.str None] !! i = Some p ->
       ["a"; "b"] !! i = Some t ->
       exists v,
         parse_annotation example.the_utils p t (Z.of_nat i + 1 + 0)
           (example.message "ann" "!echo a b") = Ok v
         /\ is_None v = false /\ [PyStr "a"] !! i = Some v.
Proof.
  apply (required_positional_binds_values example.the_utils
           (example.bare example.echo) example.client_param
           example.message_param
           [mk_param "text" POSITIONAL_OR_KEYWORD example.str None]
           "!echo" ["a"; "b"] 0 (example.message "ann" "!echo a b")).
  - reflexivity.
  - reflexivity.
  - reflexivity.
  - repeat constructor.
  - reflexivity.
Defined.

Lemma optional_positional_always_complete_witness :
  exists a,
    parse_command_args example.the_utils (example.bare example.reload)
      ("reload" :: []) 1 (example.message "ann" "!plugin reload")
    = Ok (a, ∅, true)
    /\ length a = 1%nat
    /\ forall (i : nat) p,
         [mk_param "name" POSITIONAL_OR_KEYWORD example.str_lower (Some PyNone)]
           !! i = Some p ->
         exists v,
           a !! i = Some v
           /\ (default p = Some v
               \/ exists t,
                    [] !! i = Some t
                    /\ parse_annotation example.the_utils p t
                         (Z.of_nat i + 1 + 1)
                         (example.message "ann" "!plugin reload") = Ok v
                    /\ is_None v = false).
Proof.
  apply (optional_positional_always_complete example.the_utils
           (example.bare example.reload) example.client_param
           example.message_param
           [mk_param "name" POSITIONAL_OR_KEYWORD example.str_lower (Some PyNone)]
           "reload" [] 1 (example.message "ann" "!plugin reload")).
  - reflexivity.
  - reflexivity.
  - reflexivity.
  - repeat constructor. eexists. reflexivity.
  - repeat constructor. intros t i. eexists. reflexivity.
Defined.

Lemma wrong_infrastructure_annotation_raises_witness :
  exists e,
    parse_command_args example.the_utils
      (example.bare
         (mk_handler "bad" None "pcbot.builtin"
            [example.client_param;
             mk_param "message" POSITIONAL_OR_KEYWORD example.str None]))
      ["!bad"] 0 (example.message "ann" "!bad") = Raise e
    /\ signature_error e.
Proof.
  apply (wrong_infrastructure_annotation_raises example.the_utils
           (example.bare
              (mk_handler "bad" None "pcbot.builtin"
                 [example.client_param;
                  mk_param "message" POSITIONAL_OR_KEYWORD example.str None]))
           example.client_param
           (mk_param "message" POSITIONAL_OR_KEYWORD example.str None) []).
  - reflexivity.
  - reflexivity.
Defined.

Lemma binder_raises_only_from_annotations_witness :
  signature_error annotation_error
  \/ exists p tok idx,
       p ∈ signature (function (example.bare example.check))
       /\ parse_annotation example.the_utils p tok idx
            (example.message "ann" "!check tok") = Raise annotation_error.
Proof.
  apply (binder_raises_only_from_annotations example.the_utils
           (example.bare example.check) ["!check"; "tok"] 0
           (example.message "ann" "!check tok") annotation_error).
  reflexivity.
Defined.

(** * More of sub-command resolution *)

Lemma sub_command_loop_leaf (h : list (list Command)) (command : Command) :
  deref h (sub_commands command) = [] ->
  forall toks k, sub_command_loop h command k toks = (command, k).
Proof.
  intros Hleaf. induction toks as [|tok toks IH]; intros k; [reflexivity|].
  cbn [sub_command_loop]. rewrite Hleaf. cbn [map index_of]. apply IH.
Qed.

(** X5. From a token list that is not empty, resolution takes fewer
    tokens than there are: the list handed to the binder is the rest of
    the input and still has a first token, the one the binder skips. *)
Theorem get_sub_command_keeps_a_token
    (h : list (list Command)) (command found : Command)
    (cmd_args rest : list string) (k : Z) :
  cmd_args <> [] ->
  get_sub_command h command cmd_args = (found, rest, k) ->
  (0 <= k < len cmd_args)%Z
  /\ rest = drop (Z.to_nat k) cmd_args
  /\ rest <> [].
Proof.
  intros Hne H. unfold get_sub_command in H. rewrite slice_from_1 in H.
  destruct (sub_command_loop_resolves h (tail cmd_args) command 0)
    as (found' & n & Hres & Hloop).
  rewrite Hloop in H. rewrite Z.add_0_l in H.
  apply resolves_descents_le in Hres.
  destruct cmd_args as [|c0 toks]; [congruence|]. cbn [tail] in Hres.
  rewrite slice_from_nat in H by (cbn; lia).
  injection H as _ <- <-. rewrite Nat2Z.id, len_cons. unfold len.
  split; [lia|]. split; [reflexivity|].
  intros Hnil. apply (f_equal length) in Hnil.
  rewrite length_drop in Hnil. cbn in Hnil. lia.
Qed.

(** X6. A command without sub-commands is resolved to itself with all
    its tokens, whatever they are. *)
Theorem get_sub_command_leaf
    (h : list (list Command)) (command : Command) (cmd_args : list string) :
  deref h (sub_commands command) = [] ->
  get_sub_command h command cmd_args = (command, cmd_args, 0%Z).
Proof.
  intros Hleaf. unfold get_sub_command.
  rewrite (sub_command_loop_leaf h command Hleaf).
  change 0%Z with (Z.of_nat 0).
  rewrite (slice_from_nat cmd_args 0) by lia. reflexivity.
Qed.

(** X7. When the token right after the command name names a sub-command
    that has no sub-commands of its own, that sub-command is resolved and
    exactly the command-name token is removed: the binder skips the
    sub-command's token and binds from the token after it. *)
Theorem get_sub_command_direct
    (h : list (list Command)) (command sub : Command)
    (c0 token : string) (rest : list string) :
  named_sub_command h command token = Some sub ->
  deref h (sub_commands sub) = [] ->
  get_sub_command h command (c0 :: token :: rest) = (sub, token :: rest, 1%Z).
Proof.
  intros Hsub Hleaf. unfold get_sub_command. rewrite slice_from_1.
  cbn [tail sub_command_loop].
  pose proof (index_of_named token (deref h (sub_commands command))) as Hidx.
  unfold named_sub_command in Hsub.
  destruct (index_of token (map plugins.name (deref h (sub_commands command))))
    as [i|].
  - destruct Hidx as (sub' & Hlook & Hfind). rewrite Hlook.
    rewrite Hfind in Hsub. injection Hsub as ->.
    rewrite (sub_command_loop_leaf h sub Hleaf).
    change (0 + 1)%Z with (Z.of_nat 1).
    rewrite (slice_from_nat (c0 :: token :: rest) 1) by (cbn; lia).
    reflexivity.
  - rewrite Hidx in Hsub. discriminate Hsub.
Qed.

Lemma get_sub_command_keeps_a_token_witness :
  (0 <= 1 < len ["!plugin"; "math"; "reload"])%Z
  /\ ["math"; "reload"] = drop (Z.to_nat 1) ["!plugin"; "math"; "reload"]
  /\ ["math"; "reload"] <> [].
Proof.
  apply (get_sub_command_keeps_a_token (heap example.st3)
           example.plugin_command example.reload_command
           ["!plugin"; "math"; "reload"] ["math"; "reload"] 1).
  - discriminate.
  - reflexivity.
Defined.

Lemma get_sub_command_leaf_witness :
  get_sub_command (heap example.st3) example.reload_command
    ["reload"; "math"]
  = (example.reload_command, ["reload"; "math"], 0%Z).
Proof.
  apply (get_sub_command_leaf (heap example.st3) example.reload_command
           ["reload"; "math"]).
  reflexivity.
Defined.

Lemma get_sub_command_direct_witness :
  get_sub_command (heap example.st3) example.plugin_command
    ("!plugin" :: "reload" :: ["math"])
  = (example.reload_command, "reload" :: ["math"], 1%Z).
Proof.
  apply (get_sub_command_direct (heap example.st3) example.plugin_command
           example.reload_command "!plugin" "reload" ["math"]).
  - reflexivity.
  - reflexivity.
Defined.

(** * More of the dispatcher *)

Section dispatch_more.
Context (utils : Utils).
Context (get_command : module_obj -> string -> option Command).
Context (client_user : string).
Context (call : Handler -> Message -> list pyval -> gmap string pyval
                -> res unit).
Context (time_elapsed : State -> string).

(** X8. Dispatching a message, whether it ends normally or raises, leaves
    the module objects, the sub-command lists and the [plugins]
    dictionary as they were, and keeps every earlier event: all it does
    to the state is add events. *)
Theorem on_message_only_adds_events (message : Message) (st : State) :
  only_logs st
    (snd (on_message utils get_command client_user call time_elapsed message
            st)).
Proof.
  destruct (on_message utils get_command client_user call time_elapsed message
              st) as [r st'] eqn:H.
  cbn [snd]. revert H. unfold on_message.
  destruct (String.eqb (author message) client_user).
  { intros H. injection H as _ <-. apply only_logs_refl. }
  destruct (String.eqb (content message) "").
  { intros H. injection H as _ <-. apply only_logs_refl. }
  destruct (getitem (split utils (content message) None) 0) as [first|e].
  - apply appends_only_bind; [apply appends_only_all_values|].
    intros values. apply appends_only_for_plugins.
  - intros H. injection H as _ <-. apply only_logs_refl.
Qed.

(** A turn of the loop for a message that is not a command. *)
Lemma handle_plugin_plain cmd_args message ref st m :
  modules st !! ref = Some m ->
  handle_plugin utils get_command call time_elapsed "" cmd_args message ref st
  = (Ok tt,
     mk_state (modules st) (heap st) (plugins st)
       (trace st ++ option_list (hook_task st message cmd_args ref))).
Proof.
  intros Hm. unfold handle_plugin, bindM, get_module, hook_task.
  rewrite Hm. cbn. destruct (plugins.on_message m); cbn.
  - reflexivity.
  - rewrite app_nil_r. destruct st; reflexivity.
Qed.

Lemma for_plugins_plain cmd_args message (st0 : State) refs :
  (forall ref, ref ∈ refs -> is_Some (modules st0 !! ref)) ->
  forall st,
    modules st = modules st0 ->
    for_plugins utils get_command call time_elapsed "" cmd_args message refs st
    = (Ok tt,
       mk_state (modules st) (heap st) (plugins st)
         (trace st ++ omap (hook_task st0 message cmd_args) refs)).
Proof.
  induction refs as [|ref refs IH]; intros Hwf st Hmod; cbn [for_plugins omap].
  - rewrite app_nil_r. destruct st; reflexivity.
  - destruct (Hwf ref) as [m Hm]; [left|].
    unfold bindM. rewrite (handle_plugin_plain cmd_args message ref st m)
      by (rewrite Hmod; exact Hm).
    rewrite IH; [|intros r Hr; apply Hwf; right; exact Hr|exact Hmod].
    cbn [modules heap plugins trace].
    assert (Hh : hook_task st message cmd_args ref
                 = hook_task st0 message cmd_args ref).
    { unfold hook_task. rewrite Hmod. reflexivity. }
    rewrite Hh. f_equal. f_equal. rewrite <- app_assoc. f_equal.
    unfold omap. cbn. destruct (hook_task st0 message cmd_args ref); reflexivity.
Qed.

(** X9. A message that is not the bot's own, has content, and whose first
    token is not a command (no prefix, or the prefix alone) makes the
    dispatcher add exactly one event per loaded plugin that has a
    generic-message hook, the task running that hook, in the order of
    [plugins.values()]: nothing is logged, nothing is sent, no handler is
    scheduled. *)
Theorem on_message_plain_events
    (message : Message) (st : State) (first : string) (rest : list string) :
  author message <> client_user ->
  content message <> "" ->
  plugins_loaded st ->
  split utils (content message) None = first :: rest ->
  startswith (command_prefix utils) first
  && (1 <? String.length first)%nat = false ->
  on_message utils get_command client_user call time_elapsed message st
  = (Ok tt,
     mk_state (modules st) (heap st) (plugins st)
       (trace st
        ++ omap (hook_task st message (first :: rest))
             (map_to_list (plugins st)).*2)).
Proof.
  intros Hauthor Hcontent Hwf Hsplit Hplain.
  apply String.eqb_neq in Hauthor. apply String.eqb_neq in Hcontent.
  unfold on_message. rewrite Hauthor, Hcontent, Hsplit.
  change (getitem (first :: rest) 0) with (Ok first).
  cbv iota. rewrite Hplain. unfold bindM, all_values.
  apply (for_plugins_plain (first :: rest) message st); [|reflexivity].
  intros ref Hin. apply list_elem_of_fmap in Hin as [[name ref'] [-> Hin]].
  apply elem_of_map_to_list in Hin. eapply Hwf. exact Hin.
Qed.

(** X11. When the binder leaves the resolved command incomplete and that
    command has an error text, [parse_command] logs the message, sends
    exactly that text to the channel of the message, and returns no
    command. *)
Theorem parse_command_incomplete_sends_error
    (command found : Command) (cmd : string) (cmd_args rest : list string)
    (start : Z) (message : Message) (st : State)
    (a : list pyval) (k : gmap string pyval) (text : string) :
  get_sub_command (heap st) command cmd_args = (found, rest, start) ->
  parse_command_args utils found rest start message = Ok (a, k, false) ->
  error found = Some text ->
  text <> "" ->
  parse_command utils command cmd cmd_args message st
  = (Ok (None, a, k),
     mk_state (modules st) (heap st) (plugins st)
       (trace st
        ++ [Log INFO ("@" +:+ author message +:+ " -> " +:+ content message);
            SendMessage (channel message) text])).
Proof.
  intros Hsub Hargs Herr Htext. unfold parse_command, bindM, get_state.
  rewrite Hsub, Hargs. cbn [negb]. rewrite Herr.
  unfold or_else. apply String.eqb_neq in Htext. rewrite Htext.
  unfold log_message, emit, ret. cbn [modules heap plugins trace].
  rewrite <- app_assoc. reflexivity.
Qed.

(** X12. When the binder leaves the resolved command incomplete, the
    command has no error text, and no plugin is loaded under the name
    [builtin] or the one that is has no [cmd_help] attribute,
    [parse_command] logs the message and then raises [AttributeError]:
    the usage fallback is not available. *)
Theorem parse_command_incomplete_without_help
    (command found : Command) (cmd : string) (cmd_args rest : list string)
    (start : Z) (message : Message) (st : State)
    (a : list pyval) (k : gmap string pyval) :
  get_sub_command (heap st) command cmd_args = (found, rest, start) ->
  parse_command_args utils found rest start message = Ok (a, k, false) ->
  or_else (error found) None = None ->
  (plugins st !! "builtin" = None
   \/ exists ref m, plugins st !! "builtin" = Some ref
                    /\ modules st !! ref = Some m /\ cmd_help m = None) ->
  exists e,
    exn_cls e = AttributeError
    /\ parse_command utils command cmd cmd_args message st
       = (Raise e,
          mk_state (modules st) (heap st) (plugins st)
            (trace st
             ++ [Log INFO ("@" +:+ author message +:+ " -> "
                           +:+ content message)])).
Proof.
  intros Hsub Hargs Herr Hhelp. unfold parse_command, bindM, get_state.
  rewrite Hsub, Hargs. cbn [negb]. rewrite Herr.
  unfold log_message, emit, builtin_cmd_help, bindM, get_state, raise.
  cbn [modules heap plugins trace].
  destruct Hhelp as [Hnone|(ref & m & Hb & Hm & Hc)].
  - rewrite Hnone. eexists. split; [|reflexivity]. reflexivity.
  - rewrite Hb. unfold get_module. cbn [modules]. rewrite Hm, Hc.
    eexists. split; [|reflexivity]. reflexivity.
Qed.

End dispatch_more.

Section dispatch_safety.
Context (utils : Utils).
Context (get_command : module_obj -> string -> option Command).
Context (call : Handler -> Message -> list pyval -> gmap string pyval
                -> res unit).
Context (time_elapsed : State -> string).

Lemma new_events_app (l evs : list event) :
  drop (length l) (l ++ evs) = evs.
Proof. apply drop_app_length. Qed.

Lemma new_events_none (l : list event) : drop (length l) l = [].
Proof. apply drop_all. Qed.

(** X10. In one turn of the dispatcher's loop a handler task is scheduled
    only for a command that the plugin has under the message's command
    name, resolved through its sub-commands, and only with the arguments
    of a binding that the binder marked complete. *)
Theorem handler_scheduled_only_when_complete
    (cmd : string) (cmd_args : list string) (message : Message) (ref : string)
    (st st' : State) (r : res unit)
    (f : Handler) (m : Message) (a : list pyval) (k : gmap string pyval) :
  handle_plugin utils get_command call time_elapsed cmd cmd_args message ref
    st = (r, st') ->
  CreateTask (HandlerTask f m a k) ∈ drop (length (trace st)) (trace st') ->
  exists plugin command found rest start,
    modules st !! ref = Some plugin
    /\ cmd <> ""
    /\ get_command plugin cmd = Some command
    /\ get_sub_command (heap st) command cmd_args = (found, rest, start)
    /\ parse_command_args utils found rest start message = Ok (a, k, true)
    /\ f = function found /\ m = message.
Proof.
  intros H Hin. unfold handle_plugin, bindM, get_module in H.
  destruct (modules st !! ref) as [plugin|] eqn:Hm.
  2: { injection H as _ <-. rewrite new_events_none in Hin. inversion Hin. }
  set (last := match plugins.on_message plugin with
               | Some hook =>
                   emit (CreateTask (PluginMessageTask hook message cmd_args))
               | None => ret tt
               end) in H.
  assert (Hhook : forall st1 evs,
            trace st1 = trace st ++ evs ->
            ~ CreateTask (HandlerTask f m a k) ∈ evs ->
            last st1 = (r, st') -> False).
  { intros st1 evs Ht Hnot Hlast. subst last.
    destruct (plugins.on_message plugin); injection Hlast as _ <-;
      cbn [trace] in Hin; rewrite Ht in Hin; rewrite <- ?app_assoc in Hin;
      rewrite new_events_app in Hin.
    - apply elem_of_app in Hin as [Hin|Hin]; [exact (Hnot Hin)|].
      apply elem_of_cons in Hin as [Hin|Hin]; [discriminate Hin|inversion Hin].
    - exact (Hnot Hin). }
  destruct (String.eqb_spec cmd "") as [Hcmd|Hcmd]; cbn [negb] in H.
  { exfalso. unfold ret in H at 1. cbv beta iota in H.
    apply (Hhook st []); [rewrite app_nil_r; reflexivity| |exact H].
    intros Hx. inversion Hx. }
  destruct (get_command plugin cmd) as [command|] eqn:Hget.
  2: { exfalso. unfold ret in H at 1. cbv beta iota in H.
       apply (Hhook st []); [rewrite app_nil_r; reflexivity| |exact H].
       intros Hx. inversion Hx. }
  unfold parse_command, bindM, get_state in H.
  destruct (get_sub_command (heap st) command cmd_args) as [[found rest] start]
    eqn:Hsub.
  destruct (parse_command_args utils found rest start message)
    as [[[a' k'] complete]|e] eqn:Hargs.
  2: { injection H as _ <-. rewrite new_events_none in Hin. inversion Hin. }
  destruct complete; cbn [negb] in H.
  - (* complete: the handler is scheduled *)
    unfold log_message, emit, ret in H. cbv beta iota in H.
    cbn [modules heap plugins trace] in H.
    destruct (call (function found) message a' k') as [[]|e].
    + (* the call returned: the task is scheduled *)
      cbv beta iota in H. cbn [modules heap plugins trace] in H.
      subst last.
      destruct (plugins.on_message plugin); unfold emit, ret in H;
        injection H as _ <-;
        cbn [trace] in Hin; rewrite <- ?app_assoc in Hin;
        rewrite new_events_app in Hin; cbn [app] in Hin;
        repeat (apply elem_of_cons in Hin as [Hin|Hin]);
        try discriminate Hin; try (inversion Hin; fail);
        injection Hin as -> -> -> ->;
        exists plugin, command, found, rest, start; repeat split; assumption.
    + (* the call raised: only the message was logged *)
      unfold raise in H. cbv beta iota in H. injection H as _ <-.
      cbn [trace] in Hin. rewrite new_events_app in Hin.
      apply elem_of_cons in Hin as [Hin|Hin]; [discriminate Hin|inversion Hin].
  - (* incomplete: no handler *)
    exfalso. unfold log_message, emit in H. cbv beta iota in H.
    cbn [modules heap plugins trace] in H.
    destruct (or_else (error found) None) as [text|].
    + unfold ret in H. cbv beta iota in H.
      cbn [modules heap plugins trace] in H.
      eapply Hhook
        with (evs := [Log INFO ("" +:+ "@" +:+ author message +:+ " -> "
                                +:+ content message);
                      SendMessage (channel message) text]);
        cycle 2; [exact H|cbn [trace]; rewrite <- app_assoc; reflexivity|].
      intros Hx. repeat (apply elem_of_cons in Hx as [Hx|Hx]);
        try discriminate Hx. inversion Hx.
    + unfold builtin_cmd_help, bindM, get_state, get_module, raise in H.
      cbv beta iota in H. cbn [modules heap plugins trace] in H.
      assert (Hlog : forall st1,
                trace st1 = trace st
                            ++ [Log INFO ("" +:+ "@" +:+ author message
                                          +:+ " -> " +:+ content message)] ->
                ~ CreateTask (HandlerTask f m a k)
                  ∈ drop (length (trace st)) (trace st1)).
      { intros st1 Ht Hx. rewrite Ht, new_events_app in Hx.
        apply elem_of_cons in Hx as [Hx|Hx]; [discriminate Hx|inversion Hx]. }
      destruct (plugins st !! "builtin") as [bref|]; cbv beta iota in H;
        cbn [modules heap plugins trace] in H.
      2: { injection H as _ <-. eapply Hlog; cycle 1; [exact Hin|reflexivity]. }
      destruct (modules st !! bref) as [bm|]; cbv beta iota in H;
        cbn [modules heap plugins trace] in H.
      2: { injection H as _ <-. eapply Hlog; cycle 1; [exact Hin|reflexivity]. }
      destruct (cmd_help bm) as [help|]; cbv beta iota in H;
        cbn [modules heap plugins trace] in H.
      2: { injection H as _ <-. eapply Hlog; cycle 1; [exact Hin|reflexivity]. }
      destruct (help message cmd); cbv beta iota in H;
        cbn [modules heap plugins trace] in H.
      * unfold ret in H at 1 2. cbv beta iota in H.
        eapply Hhook
          with (evs := [Log INFO ("" +:+ "@" +:+ author message +:+ " -> "
                                  +:+ content message)]);
          cycle 2; [exact H|reflexivity|].
        intros Hx. apply elem_of_cons in Hx as [Hx|Hx];
          [discriminate Hx|inversion Hx].
      * injection H as _ <-. eapply Hlog; cycle 1; [exact Hin|reflexivity].
Qed.

End dispatch_safety.

Lemma on_message_plain_events_witness :
  on_message example.the_utils example.lookup "bot"
                call_generator example.clock
    (example.message "ann" "hello there") example.st_greeter
  = (Ok tt,
     mk_state (modules example.st_greeter) (heap example.st_greeter)
       (plugins example.st_greeter)
       (trace example.st_greeter
        ++ omap (hook_task example.st_greeter
                   (example.message "ann" "hello there") ("hello" :: ["there"]))
             (map_to_list (plugins example.st_greeter)).*2)).
Proof.
  apply (on_message_plain_events example.the_utils example.lookup "bot"
           call_generator example.clock
           (example.message "ann" "hello there") example.st_greeter
           "hello" ["there"]).
  - discriminate.
  - discriminate.
  - intros name ref H. change (plugins example.st_greeter)
      with ({["greeter" := "plugins.greeter"]} : gmap string string) in H.
    apply lookup_singleton_Some in H as [_ <-].
    eexists. reflexivity.
  - reflexivity.
  - reflexivity.
Defined.

Lemma handler_scheduled_only_when_complete_witness :
  exists plugin command found rest start,
    modules example.st_echo !! "plugins.echo" = Some plugin
    /\ "echo" <> ""
    /\ example.lookup plugin "echo" = Some command
    /\ get_sub_command (heap example.st_echo) command ["!echo"; "hi"]
       = (found, rest, start)
    /\ parse_command_args example.the_utils found rest start
         (example.message "ann" "!echo hi")
       = Ok ([PyStr "hi"], ∅, true)
    /\ example.echo = function found
    /\ example.message "ann" "!echo hi" = example.message "ann" "!echo hi".
Proof.
  apply (handler_scheduled_only_when_complete example.the_utils example.lookup
           call_generator example.clock
           "echo" ["!echo"; "hi"] (example.message "ann" "!echo hi")
           "plugins.echo" example.st_echo
           (example.run
              (handle_plugin example.the_utils example.lookup call_generator
                 example.clock "echo"
                 ["!echo"; "hi"] (example.message "ann" "!echo hi")
                 "plugins.echo") example.st_echo)
           (Ok tt)).
  - reflexivity.
  - vm_compute. apply list_elem_of_further, list_elem_of_here.
Defined.

Lemma parse_command_incomplete_sends_error_witness :
  parse_command example.the_utils example.load_command "plugin" ["load"]
    (example.message "ann" "!plugin load") example.st3
  = (Ok (None, [], ∅),
     mk_state (modules example.st3) (heap example.st3) (plugins example.st3)
       (trace example.st3
        ++ [Log INFO ("@" +:+ "ann" +:+ " -> " +:+ "!plugin load");
            SendMessage "general"
              "You need to specify the name of the plugin to load."])).
Proof.
  apply (parse_command_incomplete_sends_error example.the_utils
           example.load_command example.load_command "plugin" ["load"]
           ["load"] 0 (example.message "ann" "!plugin load") example.st3 [] ∅
           "You need to specify the name of the plugin to load.").
  - reflexivity.
  - reflexivity.
  - reflexivity.
  - discriminate.
Defined.

Lemma parse_command_incomplete_without_help_witness :
  exists e,
    exn_cls e = AttributeError
    /\ parse_command example.the_utils (example.bare example.echo) "echo"
         ["!echo"] (example.message "ann" "!echo") example.st_greeter
       = (Raise e,
          mk_state (modules example.st_greeter) (heap example.st_greeter)
            (plugins example.st_greeter)
            (trace example.st_greeter
             ++ [Log INFO ("@" +:+ "ann" +:+ " -> " +:+ "!echo")])).
Proof.
  apply (parse_command_incomplete_without_help example.the_utils
           (example.bare example.echo) (example.bare example.echo) "echo"
           ["!echo"] ["!echo"] 0 (example.message "ann" "!echo")
           example.st_greeter [] ∅).
  - reflexivity.
  - reflexivity.
  - reflexivity.
  - left. reflexivity.
Defined.

(** * More of the command registry *)

Section registry_more.
Context (utils : Utils).

(** What a successful top-level registration does to the state. *)
Lemma command_top_level_state options func st m :
  opt_parent options = None ->
  modules st !! __module__ func = Some m ->
  __commands m <> NotAList ->
  existsb (fun cmd => String.eqb (plugins.name cmd)
                        (registered_name (options, func)))
    (top_level st (__module__ func)) = false ->
  exists cmd,
    plugins.name cmd = registered_name (options, func)
    /\ sub_commands cmd = length (heap st)
    /\ parent cmd = None
    /\ function cmd = func
    /\ usage cmd = Some (command_prefix utils +:+ registered_name (options, func)
                         +:+ " " +:+ from_option id "" (opt_usage options))
    /\ command utils options func st
       = (Ok tt,
          mk_state
            (<[__module__ func :=
                 mk_module (CmdList (top_level st (__module__ func) ++ [cmd]))
                   (plugins.on_message m) (cmd_help m)]> (modules st))
            (heap st ++ [[]]) (plugins st)
            (trace st
             ++ [Log DEBUG ("Registered command "
                            +:+ registered_name (options, func)
                            +:+ " from plugin " +:+ __module__ func)])).
Proof.
  intros Hp Hm Hattr Hnew. unfold top_level in *. rewrite Hm in *.
  unfold registered_name in *. cbn [fst snd] in *.
  unfold command, bindM, get_state. rewrite Hm, Hp. cbn [from_option].
  exists (mk_command
            (from_option id (__name__ func) (opt_name options))
            (Some (command_prefix utils
                   +:+ from_option id (__name__ func) (opt_name options)
                   +:+ " " +:+ from_option id "" (opt_usage options)))
            (command_description options func) func (length (heap st)) None
            (from_option id false (opt_hidden options)) (opt_error options)
            (from_option id PyStr (opt_pos_check options))).
  do 5 (split; [reflexivity|]).
  destruct (__commands m) as [| |l] eqn:Hc; [|congruence|].
  - cbn [existsb]. unfold new_list, set_commands, emit, ret.
    cbn [modules heap plugins trace]. rewrite Hm. reflexivity.
  - rewrite Hnew. unfold new_list, set_commands, emit, ret.
    cbn [modules heap plugins trace]. rewrite Hm. reflexivity.
Qed.


(** X14. A registration that is refused, because [__commands] is not a
    list or because the name is taken, has changed nothing: the state is
    as before the call. *)
Theorem command_refusal_changes_nothing
    (options : Options) (func : Handler) (st st' : State) (e : exn) :
  command utils options func st = (Raise e, st') ->
  exn_cls e = Exception ->
  st' = st.
Proof.
  unfold command, bindM, get_state. intros H He.
  assert (Hend : forall (x : res unit * State),
            x = (Raise e, st') ->
            (exists s, x = (Ok tt, s))
            \/ (exists s, x = (Raise (mk_exn AttributeError
                    "'NoneType' object has no attribute '__commands'"), s))
            \/ x.2 = st ->
            st' = st).
  { intros x Hx [[s Hs]|[[s Hs]|Hs]]; subst x.
    - discriminate Hs.
    - injection Hs as He' _. rewrite He' in He. discriminate He.
    - exact Hs. }
  apply (Hend _ H). clear H Hend.
  destruct (modules st !! __module__ func) as [m|] eqn:Hm; cbn [from_option].
  - destruct (__commands m) as [| |l].
    + left. cbn [existsb]. unfold new_list, list_append, set_commands, emit, ret.
      destruct (opt_parent options); cbn [modules heap plugins trace];
        rewrite Hm; eexists; reflexivity.
    + right. right. reflexivity.
    + destruct (existsb _ l).
      * right. right. reflexivity.
      * left. unfold new_list, list_append, set_commands, emit, ret.
        destruct (opt_parent options); cbn [modules heap plugins trace];
          rewrite Hm; eexists; reflexivity.
  - right. left. cbn [existsb].
    unfold new_list, list_append, set_commands, emit, ret.
    destruct (opt_parent options); cbn [modules heap plugins trace];
      rewrite Hm; eexists; reflexivity.
Qed.

End registry_more.

Section registry_names.
Context (utils : Utils).

Lemma existsb_name_false (n : string) (l : list Command) :
  existsb (fun cmd => String.eqb (plugins.name cmd) n) l = false ->
  n ∉ map plugins.name l.
Proof.
  induction l as [|c l IH]; cbn [existsb map]; intros H Hin.
  - inversion Hin.
  - apply orb_false_iff in H as [Hc Hl].
    apply elem_of_cons in Hin as [->|Hin].
    + rewrite String.eqb_refl in Hc. discriminate Hc.
    + exact (IH Hl Hin).
Qed.

Lemma existsb_name_false_iff (n : string) (l : list Command) :
  n ∉ map plugins.name l ->
  existsb (fun cmd => String.eqb (plugins.name cmd) n) l = false.
Proof.
  induction l as [|c l IH]; cbn [existsb map]; intros H; [reflexivity|].
  apply not_elem_of_cons in H as [Hne Hl].
  rewrite (IH Hl), orb_false_r. apply String.eqb_neq. congruence.
Qed.

(** X15. Whatever a registration does, it keeps the invariant of the
    registry: in every module, no two top-level commands have the same
    name. *)
Theorem command_keeps_top_level_names_distinct
    (options : Options) (func : Handler) (st : State) :
  (forall ref, NoDup (map plugins.name (top_level st ref))) ->
  forall ref,
    NoDup (map plugins.name
             (top_level (snd (command utils options func st)) ref)).
Proof.
  intros Hinv ref. unfold command, bindM, get_state.
  pose proof (Hinv (__module__ func)) as Hmod.
  pose proof (Hinv ref) as Href.
  unfold top_level in Hmod, Href |- *.
  destruct (modules st !! __module__ func) as [m|] eqn:Hm; cbn [from_option].
  - destruct (__commands m) as [| |l] eqn:Hc.
    + cbn [existsb]. unfold new_list, list_append, set_commands, emit, ret.
      destruct (opt_parent options); cbn [modules heap plugins trace snd];
        rewrite Hm; cbn [modules heap plugins trace snd];
        rewrite lookup_insert; destruct (decide (__module__ func = ref));
        cbn [__commands map]; try exact Href; try constructor;
        try (intros Hx; inversion Hx); constructor.
    + cbn [snd]. exact Href.
    + destruct (existsb _ l) eqn:Hdup.
      * cbn [snd]. exact Href.
      * unfold new_list, list_append, set_commands, emit, ret.
        destruct (opt_parent options); cbn [modules heap plugins trace snd];
          rewrite Hm; cbn [modules heap plugins trace snd];
          rewrite lookup_insert; destruct (decide (__module__ func = ref));
          cbn [__commands]; try exact Href; try exact Hmod.
        rewrite map_app. cbn [map]. apply NoDup_app. split; [exact Hmod|].
        split; [|apply NoDup_singleton].
        intros x Hx Hx'. apply list_elem_of_singleton in Hx'. subst x.
        exact (existsb_name_false _ _ Hdup Hx).
  - cbn [existsb]. unfold new_list, list_append, set_commands, emit, ret.
    destruct (opt_parent options); cbn [modules heap plugins trace snd];
      rewrite Hm; cbn [modules snd]; exact Href.
Qed.

(** X16. Running a module body made of top-level registrations with
    pairwise distinct names, none of which is taken in the module,
    succeeds and appends one command per registration, in order and under
    these names; the [plugins] dictionary is not touched. *)
Theorem register_all_appends (body : list (Options * Handler)) (ref : string) :
  forall (st : State) (m : module_obj),
    Forall (fun reg => opt_parent (fst reg) = None
                       /\ __module__ (snd reg) = ref) body ->
    NoDup (map registered_name body) ->
    Forall (fun reg => registered_name reg
                       ∉ map plugins.name (top_level st ref)) body ->
    modules st !! ref = Some m ->
    __commands m <> NotAList ->
    exists st' cmds,
      register_all utils body st = (Ok tt, st')
      /\ top_level st' ref = top_level st ref ++ cmds
      /\ map plugins.name cmds = map registered_name body
      /\ plugins st' = plugins st.
Proof.
  induction body as [|[options func] body IH];
    intros st m Hbody Hnames Hfree Hm Hattr.
  - exists st, []. cbn [register_all map]. rewrite app_nil_r. auto.
  - inversion Hbody as [|? ? [Hp Hmodule] Hbody']; subst.
    inversion Hnames as [|? ? Hnotin Hnames']; subst.
    inversion Hfree as [|? ? Hfree1 Hfree']; subst.
    cbn [fst snd] in *.
    destruct (command_top_level_state utils options func st m Hp Hm Hattr)
      as (cmd & Hname & _ & _ & _ & _ & Hcmd).
    { apply existsb_name_false_iff. exact Hfree1. }
    cbn [register_all]. unfold bindM at 1. rewrite Hcmd.
    set (st1 := mk_state _ _ _ _).
    assert (Htop : top_level st1 (__module__ func)
                   = top_level st (__module__ func) ++ [cmd]).
    { unfold top_level at 1. subst st1. cbn [modules].
      rewrite lookup_insert_eq. reflexivity. }
    destruct (IH st1 (mk_module
                        (CmdList (top_level st (__module__ func) ++ [cmd]))
                        (plugins.on_message m) (cmd_help m)))
      as (st' & cmds & Hrun & Htop' & Hnames'' & Hplug).
    + exact Hbody'.
    + exact Hnames'.
    + rewrite Htop. apply Forall_forall. intros reg Hreg.
      rewrite Forall_forall in Hfree'. specialize (Hfree' reg Hreg).
      rewrite map_app. cbn [map]. intros Hin.
      apply elem_of_app in Hin as [Hin|Hin]; [exact (Hfree' Hin)|].
      apply list_elem_of_singleton in Hin. apply Hnotin.
      rewrite <- Hname, <- Hin. apply list_elem_of_fmap. exists reg.
      split; [reflexivity|exact Hreg].
    + subst st1. cbn [modules]. apply lookup_insert_eq.
    + cbn. discriminate.
    + exists st', (cmd :: cmds). split; [exact Hrun|].
      split; [rewrite Htop', Htop, <- app_assoc; reflexivity|].
      split; [cbn [map]; rewrite Hnames'', Hname; reflexivity|].
      rewrite Hplug. reflexivity.
Qed.

End registry_names.

(** * More of the plugin manager *)

Lemma without_commands_top_level (st : State) (ref : string) :
  top_level (without_commands st ref) ref = [].
Proof.
  unfold without_commands, top_level.
  destruct (modules st !! ref) as [m|] eqn:Hm.
  - cbn [modules]. rewrite lookup_insert_eq. reflexivity.
  - rewrite Hm. reflexivity.
Qed.

(** What [reload_plugin] does before it calls [importlib.reload]. *)
Lemma reload_plugin_clears reload_module name st ref m :
  plugins st !! name = Some ref ->
  modules st !! ref = Some m ->
  reload_plugin reload_module name st
  = (plugin <- reload_module ref ;;
     plugins_setitem name plugin ;;;
     emit (Log DEBUG ("RELOADED PLUGIN " +:+ name)))
      (without_commands st ref).
Proof.
  intros Hp Hm. unfold reload_plugin. unfold bindM at 1. unfold get_state.
  rewrite Hp. unfold bindM at 1. unfold get_module. rewrite Hm.
  unfold bindM at 1. unfold without_commands. rewrite Hm.
  destruct (__commands m) eqn:Hc; unfold del_commands, ret; try rewrite Hm;
    try reflexivity.
  replace (mk_state
             (<[ref := mk_module NoAttr (plugins.on_message m) (cmd_help m)]>
                (modules st)) (heap st) (plugins st) (trace st)) with st;
    [reflexivity|].
  destruct st as [ms h ps t]. cbn in *. f_equal. symmetry.
  apply insert_id. rewrite Hm. destruct m. cbn in Hc. subst. reflexivity.
Qed.

(** X17. When the reload of a loaded plugin raises without having run
    anything, the exception reaches the caller, and the plugin stays in
    the [plugins] dictionary with its commands gone: [reload_plugin] has
    deleted [__commands] before reloading. *)
Theorem reload_plugin_failure_loses_commands
    (reload_module : string -> M string) (name ref : string) (st : State)
    (m : module_obj) (e : exn) :
  plugins st !! name = Some ref ->
  modules st !! ref = Some m ->
  reload_module ref (without_commands st ref)
  = (Raise e, without_commands st ref) ->
  reload_plugin reload_module name st = (Raise e, without_commands st ref)
  /\ plugins (without_commands st ref) !! name = Some ref
  /\ top_level (without_commands st ref) ref = [].
Proof.
  intros Hp Hm Hfail. split; [|split].
  - rewrite (reload_plugin_clears reload_module name st ref m Hp Hm).
    unfold bindM at 1. rewrite Hfail. reflexivity.
  - unfold without_commands. rewrite Hm. exact Hp.
  - apply without_commands_top_level.
Qed.

(** X18. Reloading a loaded plugin whose module body is a sequence of
    top-level registrations with pairwise distinct names succeeds
    whatever was registered before, and leaves the module with exactly
    the commands of the body, in order: reloading again gives the same
    names, and no registration is refused as a duplicate of its earlier
    self. *)
Theorem reload_plugin_registers_again
    (utils : Utils) (body : list (Options * Handler)) (name ref : string)
    (st : State) (m : module_obj) :
  plugins st !! name = Some ref ->
  modules st !! ref = Some m ->
  Forall (fun reg => opt_parent (fst reg) = None
                     /\ __module__ (snd reg) = ref) body ->
  NoDup (map registered_name body) ->
  exists st' cmds,
    reload_plugin (fun r => register_all utils body ;;; ret r) name st
    = (Ok tt, st')
    /\ top_level st' ref = cmds
    /\ map plugins.name cmds = map registered_name body
    /\ plugins st' = plugins st.
Proof.
  intros Hp Hm Hbody Hnames.
  rewrite (reload_plugin_clears _ name st ref m Hp Hm).
  destruct (register_all_appends utils body ref (without_commands st ref)
              (mk_module NoAttr (plugins.on_message m) (cmd_help m)))
    as (st1 & cmds & Hrun & Htop & Hcmds & Hplug).
  - exact Hbody.
  - exact Hnames.
  - rewrite without_commands_top_level. apply Forall_forall.
    intros reg _ Hin. inversion Hin.
  - unfold without_commands. rewrite Hm. cbn [modules].
    apply lookup_insert_eq.
  - cbn. discriminate.
  - rewrite without_commands_top_level in Htop. cbn [app] in Htop.
    eexists. exists cmds. unfold bindM. rewrite Hrun.
    unfold ret, plugins_setitem, emit. cbn [modules heap plugins trace].
    split; [reflexivity|].
    split; [unfold top_level in *; cbn [modules]; exact Htop|].
    split; [exact Hcmds|].
    cbn [plugins]. rewrite Hplug.
    assert (Hp' : plugins (without_commands st ref) = plugins st).
    { unfold without_commands. rewrite Hm. reflexivity. }
    rewrite Hp'. apply insert_id. exact Hp.
Qed.

Section manager_more.
Context (utils : Utils).
Context (import_module : string -> M string).

(** X19. When the import succeeds, [load_plugin] returns [True], and
    afterwards [get_plugin] finds the imported module under the plugin's
    name while every other name resolves as it did after the import. *)
Theorem load_plugin_then_get_plugin
    (name package plugin : string) (st st1 : State) :
  startswith "__" name && endswith "__" name = false ->
  import_module (package +:+ "." +:+ name) st = (Ok plugin, st1) ->
  exists st',
    load_plugin utils import_module name package st = (Ok true, st')
    /\ fst (get_plugin name st') = Ok (Some plugin)
    /\ (forall other, other <> name ->
                      fst (get_plugin other st') = fst (get_plugin other st1))
    /\ modules st' = modules st1.
Proof.
  intros Hname Himp. unfold load_plugin.
  rewrite <- negb_andb, Hname. cbn [negb]. rewrite Himp.
  eexists. split; [reflexivity|]. unfold get_plugin.
  cbn [fst plugins modules]. split; [|split; [|reflexivity]].
  - rewrite lookup_insert_eq. reflexivity.
  - intros other Hne. rewrite lookup_insert_ne by congruence. reflexivity.
Qed.

(** X20. Loading a plugin that was not loaded and unloading it again
    gives back the [plugins] dictionary and the module objects that the
    import left. *)
Theorem load_then_unload_plugin
    (name package plugin : string) (st st1 : State) :
  startswith "__" name && endswith "__" name = false ->
  import_module (package +:+ "." +:+ name) st = (Ok plugin, st1) ->
  plugins st1 !! name = None ->
  exists st' st'',
    load_plugin utils import_module name package st = (Ok true, st')
    /\ unload_plugin name st' = (Ok tt, st'')
    /\ plugins st'' = plugins st1
    /\ modules st'' = modules st1.
Proof.
  intros Hname Himp Hfree. unfold load_plugin.
  rewrite <- negb_andb, Hname. cbn [negb]. rewrite Himp.
  eexists. eexists. split; [reflexivity|].
  unfold unload_plugin, bindM, get_state, plugins_setitem, emit, ret.
  cbn [modules heap plugins trace]. rewrite lookup_insert_eq.
  rewrite bool_decide_eq_true_2 by (eexists; reflexivity).
  unfold plugins_delitem, emit. cbn [modules heap plugins trace].
  split; [reflexivity|]. cbn [plugins modules]. split; [|reflexivity].
  rewrite delete_insert_eq. apply delete_id. exact Hfree.
Qed.

(** X21. Unloading a loaded plugin removes its name from the [plugins]
    dictionary and nothing else: every other plugin stays, the module
    object and its commands are not touched, and unloading it a second
    time changes nothing. *)
Theorem unload_plugin_removes_only_name
    (name ref : string) (st : State) :
  plugins st !! name = Some ref ->
  exists st',
    unload_plugin name st = (Ok tt, st')
    /\ fst (get_plugin name st') = Ok None
    /\ (forall other, other <> name ->
                      fst (get_plugin other st') = fst (get_plugin other st))
    /\ modules st' = modules st
    /\ heap st' = heap st
    /\ unload_plugin name st' = (Ok tt, st').
Proof.
  intros Hp. unfold unload_plugin at 1. unfold bindM, get_state.
  rewrite Hp. rewrite bool_decide_eq_true_2 by (eexists; reflexivity).
  unfold plugins_delitem, emit. cbn [modules heap plugins trace].
  eexists. split; [reflexivity|]. unfold get_plugin. cbn [fst plugins].
  split; [rewrite lookup_delete_eq; reflexivity|].
  split; [intros other Hne; rewrite lookup_delete_ne by congruence;
          reflexivity|].
  split; [reflexivity|]. split; [reflexivity|].
  unfold unload_plugin, bindM, get_state. cbn [plugins].
  rewrite lookup_delete_eq.
  rewrite bool_decide_eq_false_2; [reflexivity|].
  intros [x Hx]. discriminate Hx.
Qed.

(** X24. [load_plugins] never asks the importer for an entry whose name
    without extension ends with [lib] or has the form [__x__], such as
    [__init__.py] and [__pycache__]: two importers that agree on every
    other entry make it do the same. *)
Theorem load_plugins_skips_libraries
    (import_module' : string -> M string) (listdir : list string) :
  (forall entry,
      entry ∈ listdir ->
      loadable (fst (splitext entry)) = true ->
      import_module ("plugins" +:+ "." +:+ fst (splitext entry))
      = import_module' ("plugins" +:+ "." +:+ fst (splitext entry))) ->
  forall st,
    load_plugins utils import_module listdir st
    = load_plugins utils import_module' listdir st.
Proof.
  unfold load_plugins. induction listdir as [|entry rest IH]; intros Hagree st.
  - reflexivity.
  - cbn [load_each].
    assert (Hrest : forall st1,
              load_each utils import_module rest st1
              = load_each utils import_module' rest st1).
    { apply IH. intros e He. apply Hagree. right. exact He. }
    assert (Hhead : (if negb (endswith "lib" (fst (splitext entry)))
                     then _ <- load_plugin utils import_module
                                 (fst (splitext entry)) "plugins" ;; ret tt
                     else ret tt) st
                    = (if negb (endswith "lib" (fst (splitext entry)))
                       then _ <- load_plugin utils import_module'
                                   (fst (splitext entry)) "plugins" ;; ret tt
                       else ret tt) st).
    { destruct (negb (endswith "lib" (fst (splitext entry)))) eqn:Hlib;
        [|reflexivity].
      unfold bindM, load_plugin.
      destruct (negb (startswith "__" (fst (splitext entry)))
                || negb (endswith "__" (fst (splitext entry)))) eqn:Hdunder;
        [|reflexivity].
      rewrite (Hagree entry); [reflexivity|left|].
      unfold loadable. rewrite Hlib, Hdunder. reflexivity. }
    unfold bindM at 1 3. rewrite Hhead.
    destruct ((if negb (endswith "lib" (fst (splitext entry)))
               then _ <- load_plugin utils import_module'
                           (fst (splitext entry)) "plugins" ;; ret tt
               else ret tt) st) as [[u|e] st1]; [apply Hrest|reflexivity].
Qed.

End manager_more.

Section save_more.
Context (utils : Utils).
Context (save_of : string -> option (State -> res pyval)).

(** What [save_plugin] does, in one equation. *)
Lemma save_plugin_logs (name : string) (st : State) :
  save_plugin utils save_of name st
  = (Ok tt,
     mk_state (modules st) (heap st) (plugins st)
       (trace st ++ option_list (save_error utils save_of st name))).
Proof.
  unfold save_plugin, save_error, bindM, get_state, ret, emit.
  destruct st as [ms h ps t]. cbn [modules heap plugins trace].
  destruct (ps !! name) as [plugin|]; cbn [option_list];
    [|rewrite app_nil_r; reflexivity].
  destruct (save_of plugin) as [save|]; cbn [option_list];
    [|rewrite app_nil_r; reflexivity].
  destruct (save (mk_state ms h ps t)) as [v|e]; cbn [option_list];
    [rewrite app_nil_r; reflexivity|].
  destruct (is_TypeError e); cbn [option_list modules heap plugins trace];
    [rewrite app_nil_r; reflexivity|reflexivity].
Qed.

(** X22. [save_plugin] returns normally whatever the plugin's [save]
    does, and changes nothing but the log: it adds one ERROR line when
    [save] raised something other than a [TypeError], and nothing at all
    when [save] returned, raised a [TypeError], is missing, or the plugin
    is not loaded. *)
Theorem save_plugin_never_raises (name : string) (st : State) :
  save_plugin utils save_of name st
  = (Ok tt,
     mk_state (modules st) (heap st) (plugins st)
       (trace st ++ option_list (save_error utils save_of st name))).
Proof. apply save_plugin_logs. Qed.

(** The loop of [save_plugins] goes through all the names: it returns
    normally, only adds to the log, and the failure of every save that
    fails is in the log at the end. *)
Lemma save_each_logs_failures (st0 : State) (names : list string) :
  forall st,
    only_logs st0 st ->
    exists st',
      save_each utils save_of names st = (Ok tt, st')
      /\ only_logs st st'
      /\ forall name plugin save e,
           name ∈ names ->
           plugins st0 !! name = Some plugin ->
           save_of plugin = Some save ->
           (forall s, only_logs st0 s -> save s = Raise e) ->
           is_TypeError e = false ->
           Log ERROR ("An error occurred when saving plugin " +:+ name
                      +:+ nl +:+ format_exception utils e) ∈ trace st'.
Proof.
  induction names as [|n names IH]; intros st Hst; cbn [save_each].
  - exists st. split; [reflexivity|]. split; [apply only_logs_refl|].
    intros name plugin save e Hin. inversion Hin.
  - unfold bindM. rewrite save_plugin_logs.
    set (st1 := mk_state (modules st) (heap st) (plugins st)
                  (trace st ++ option_list (save_error utils save_of st n))).
    assert (Hstep : only_logs st st1).
    { unfold only_logs. cbn. repeat split. eexists. reflexivity. }
    destruct (IH st1 (only_logs_trans _ _ _ Hst Hstep))
      as (st' & Hrun & Hlog & Hall).
    exists st'. split; [exact Hrun|].
    split; [exact (only_logs_trans _ _ _ Hstep Hlog)|].
    intros name plugin save e Hin Hp Hs Hfail He.
    apply elem_of_cons in Hin as [->|Hin].
    + eapply only_logs_elem; [exact Hlog|].
      subst st1. cbn [trace]. apply elem_of_app. right.
      unfold save_error. pose proof Hst as (_ & _ & Hps & _).
      rewrite Hps, Hp, Hs, (Hfail st Hst), He. left.
    + exact (Hall name plugin save e Hin Hp Hs Hfail He).
Qed.

(** X23. With [save] functions that leave the [plugins] dictionary alone,
    [save_plugins] returns normally whatever they return or raise, and all
    that changes in the state is the log.  A failing save does not keep
    the later plugins from being saved: every loaded plugin whose [save]
    raises something other than a [TypeError] has its ERROR line in the
    log at the end, however many saves failed before it. *)
Theorem save_plugins_never_raises (st : State) :
  exists st',
    save_plugins utils save_of st = (Ok tt, st')
    /\ only_logs st st'
    /\ forall name plugin save e,
         plugins st !! name = Some plugin ->
         save_of plugin = Some save ->
         (forall s, only_logs st s -> save s = Raise e) ->
         is_TypeError e = false ->
         Log ERROR ("An error occurred when saving plugin " +:+ name
                    +:+ nl +:+ format_exception utils e) ∈ trace st'.
Proof.
  unfold save_plugins, bindM, all_keys.
  destruct (save_each_logs_failures st (map_to_list (plugins st)).*1 st
              (only_logs_refl st)) as (st' & Hrun & Hlog & Hall).
  exists st'. split; [exact Hrun|]. split; [exact Hlog|].
  intros name plugin save e Hp Hs Hfail He.
  apply (Hall name plugin save e); [|assumption..].
  apply list_elem_of_fmap. exists (name, plugin). split; [reflexivity|].
  apply elem_of_map_to_list. exact Hp.
Qed.

End save_more.

Lemma save_plugins_never_raises_witness :
  exists st',
    save_plugins example.the_utils example.save_fails example.st_two
    = (Ok tt, st')
    /\ Log ERROR ("An error occurred when saving plugin greeter" +:+ nl
                  +:+ "disk full") ∈ trace st'
    /\ Log ERROR ("An error occurred when saving plugin echo" +:+ nl
                  +:+ "disk full") ∈ trace st'.
Proof.
  destruct (save_plugins_never_raises example.the_utils example.save_fails
              example.st_two) as (st' & Hrun & _ & Hall).
  exists st'. split; [exact Hrun|]. split.
  - apply (Hall "greeter" "plugins.greeter"
             (fun _ => Raise (mk_exn Exception "disk full"))
             (mk_exn Exception "disk full")); reflexivity.
  - apply (Hall "echo" "plugins.echo"
             (fun _ => Raise (mk_exn Exception "disk full"))
             (mk_exn Exception "disk full")); reflexivity.
Defined.

(** *** The registry and the plugin manager on concrete states *)


Lemma command_refusal_changes_nothing_witness :
  snd (command example.the_utils (example.named "plugin") example.reload_again
         example.st3)
  = example.st3.
Proof.
  apply (command_refusal_changes_nothing example.the_utils
           (example.named "plugin") example.reload_again example.st3
           (snd (command example.the_utils (example.named "plugin")
                   example.reload_again example.st3))
           (mk_exn Exception "You can't assign two commands with the same name")).
  - reflexivity.
  - reflexivity.
Defined.

Lemma command_keeps_top_level_names_distinct_witness :
  NoDup (map plugins.name
           (top_level
              (snd (command example.the_utils (example.named "plugin")
                      example.plugin_ example.st0)) "pcbot.builtin")).
Proof.
  apply (command_keeps_top_level_names_distinct example.the_utils
           (example.named "plugin") example.plugin_ example.st0).
  intros ref. unfold top_level.
  change (modules example.st0)
    with ({["pcbot.builtin" := example.fresh_module]} : gmap string module_obj).
  rewrite lookup_singleton. case_decide; constructor.
Defined.

Lemma register_all_appends_witness :
  exists st' cmds,
    register_all example.the_utils
      [(example.named "plugin", example.plugin_); (no_options, example.say)]
      example.st0 = (Ok tt, st')
    /\ top_level st' "pcbot.builtin"
       = top_level example.st0 "pcbot.builtin" ++ cmds
    /\ map plugins.name cmds = ["plugin"; "say"]
    /\ plugins st' = plugins example.st0.
Proof.
  apply (register_all_appends example.the_utils
           [(example.named "plugin", example.plugin_);
            (no_options, example.say)]
           "pcbot.builtin" example.st0 example.fresh_module).
  - repeat constructor.
  - repeat constructor; cbn; intros H;
      repeat (apply elem_of_cons in H as [H|H]); try discriminate H;
      inversion H.
  - repeat constructor; intros H; inversion H.
  - reflexivity.
  - discriminate.
Defined.

Lemma reload_plugin_failure_loses_commands_witness :
  reload_plugin example.import_malformed "echo" example.st_echo
  = (Raise (mk_exn SyntaxError "invalid syntax"),
     without_commands example.st_echo "plugins.echo")
  /\ plugins (without_commands example.st_echo "plugins.echo") !! "echo"
     = Some "plugins.echo"
  /\ top_level (without_commands example.st_echo "plugins.echo") "plugins.echo"
     = [].
Proof.
  apply (reload_plugin_failure_loses_commands example.import_malformed
           "echo" "plugins.echo" example.st_echo
           (mk_module (CmdList [example.bare example.echo]) None None)
           (mk_exn SyntaxError "invalid syntax")).
  - reflexivity.
  - reflexivity.
  - reflexivity.
Defined.

Lemma reload_plugin_registers_again_witness :
  exists st' cmds,
    reload_plugin
      (fun r => register_all example.the_utils
                  [(example.named "plugin", example.plugin_)] ;;; ret r)
      "builtin" example.st_builtin
    = (Ok tt, st')
    /\ top_level st' "pcbot.builtin" = cmds
    /\ map plugins.name cmds = ["plugin"]
    /\ plugins st' = plugins example.st_builtin.
Proof.
  apply (reload_plugin_registers_again example.the_utils
           [(example.named "plugin", example.plugin_)] "builtin"
           "pcbot.builtin" example.st_builtin
           (mk_module (CmdList [example.plugin_command]) None None)).
  - reflexivity.
  - reflexivity.
  - repeat constructor.
  - repeat constructor. intros H. inversion H.
Defined.

Lemma load_plugin_then_get_plugin_witness :
  exists st',
    load_plugin example.the_utils example.import_found "greeter" "plugins"
      example.st_imported = (Ok true, st')
    /\ fst (get_plugin "greeter" st') = Ok (Some "plugins.greeter")
    /\ (forall other, other <> "greeter" ->
                      fst (get_plugin other st')
                      = fst (get_plugin other example.st_imported))
    /\ modules st' = modules example.st_imported.
Proof.
  apply (load_plugin_then_get_plugin example.the_utils example.import_found
           "greeter" "plugins" "plugins.greeter" example.st_imported
           example.st_imported).
  - reflexivity.
  - reflexivity.
Defined.

Lemma load_then_unload_plugin_witness :
  exists st' st'',
    load_plugin example.the_utils example.import_found "greeter" "plugins"
      example.st_imported = (Ok true, st')
    /\ unload_plugin "greeter" st' = (Ok tt, st'')
    /\ plugins st'' = plugins example.st_imported
    /\ modules st'' = modules example.st_imported.
Proof.
  apply (load_then_unload_plugin example.the_utils example.import_found
           "greeter" "plugins" "plugins.greeter" example.st_imported
           example.st_imported).
  - reflexivity.
  - reflexivity.
  - reflexivity.
Defined.

Lemma unload_plugin_removes_only_name_witness :
  exists st',
    unload_plugin "greeter" example.st_greeter = (Ok tt, st')
    /\ fst (get_plugin "greeter" st') = Ok None
    /\ (forall other, other <> "greeter" ->
                      fst (get_plugin other st')
                      = fst (get_plugin other example.st_greeter))
    /\ modules st' = modules example.st_greeter
    /\ heap st' = heap example.st_greeter
    /\ unload_plugin "greeter" st' = (Ok tt, st').
Proof.
  apply (unload_plugin_removes_only_name "greeter" "plugins.greeter"
           example.st_greeter).
  reflexivity.
Defined.

Lemma load_plugins_skips_libraries_witness :
  load_plugins example.the_utils example.import_missing
    ["__init__.py"; "mathlib.py"; "__pycache__"] example.st_greeter
  = load_plugins example.the_utils example.import_malformed
      ["__init__.py"; "mathlib.py"; "__pycache__"] example.st_greeter.
Proof.
  apply (load_plugins_skips_libraries example.the_utils example.import_missing
           example.import_malformed
           ["__init__.py"; "mathlib.py"; "__pycache__"]).
  intros entry Hin Hload.
  repeat (apply elem_of_cons in Hin as [->|Hin]);
    try (vm_compute in Hload; discriminate Hload).
  inversion Hin.
Defined.

Section dispatch_complete.
Context (utils : Utils).
Context (get_command : module_obj -> string -> option Command).
Context (call : Handler -> Message -> list pyval -> gmap string pyval
                -> res unit).
Context (time_elapsed : State -> string).

(** X25. When the plugin has a command under the message's command name
    and the binder marks the resolved command complete, the turn of the
    dispatcher's loop logs the message and calls the resolved command's
    handler with the bound arguments.  If the call returns, the turn ends
    normally having scheduled one task for that call, logged the timing
    line with the elapsed time and, last, scheduled the plugin's
    generic-message hook if it has one; nothing is sent.  If the call
    raises, the turn raises the same exception with only the message
    logged: no task, no timing line, no hook. *)
Theorem handle_plugin_schedules_handler
    (cmd : string) (cmd_args rest : list string) (message : Message)
    (ref : string) (st : State) (plugin : module_obj)
    (command found : Command) (start : Z)
    (a : list pyval) (k : gmap string pyval) :
  modules st !! ref = Some plugin ->
  cmd <> "" ->
  get_command plugin cmd = Some command ->
  get_sub_command (heap st) command cmd_args = (found, rest, start) ->
  parse_command_args utils found rest start message = Ok (a, k, true) ->
  handle_plugin utils get_command call time_elapsed cmd cmd_args message ref
    st
  = let logged :=
      trace st
      ++ [Log INFO ("@" +:+ author message +:+ " -> " +:+ content message)] in
    let scheduled :=
      logged ++ [CreateTask (HandlerTask (function found) message a k)] in
    match call (function found) message a k with
    | Ok _ =>
        (Ok tt,
         mk_state (modules st) (heap st) (plugins st)
           (scheduled
            ++ [Log DEBUG
                  ("Time spent parsing comand: "
                   +:+ time_elapsed
                         (mk_state (modules st) (heap st) (plugins st)
                            scheduled))]
            ++ option_list (hook_task st message cmd_args ref)))
    | Raise e =>
        (Raise e, mk_state (modules st) (heap st) (plugins st) logged)
    end.
Proof.
  intros Hm Hcmd Hget Hsub Hargs.
  apply String.eqb_neq in Hcmd.
  unfold handle_plugin, bindM, get_module, hook_task. rewrite Hm, Hcmd.
  cbn [negb]. rewrite Hget.
  unfold parse_command, bindM, get_state. rewrite Hsub, Hargs. cbn [negb].
  unfold log_message, emit, ret. cbn [modules heap plugins trace].
  rewrite string_app_nil_l.
  destruct (call (function found) message a k) as [[]|e]; [|reflexivity].
  cbn [modules heap plugins trace].
  destruct (plugins.on_message plugin);
    cbn [option_list modules heap plugins trace];
    rewrite <- ?app_assoc; reflexivity.
Qed.

End dispatch_complete.

Lemma handle_plugin_schedules_handler_witness :
  handle_plugin example.the_utils example.lookup call_generator example.clock
    "echo" ["!echo"; "hi"] (example.message "ann" "!echo hi") "plugins.echo"
    example.st_echo
  = (Ok tt,
     mk_state (modules example.st_echo) (heap example.st_echo)
       (plugins example.st_echo)
       [Log INFO "@ann -> !echo hi";
        CreateTask (HandlerTask example.echo
                      (example.message "ann" "!echo hi") [PyStr "hi"] ∅);
        Log DEBUG "Time spent parsing comand: 0.000000"])
  /\ handle_plugin example.the_utils example.lookup call_generator
       example.clock "pick" ["!pick"; "x"] (example.message "ann" "!pick x")
       "plugins.picker" example.st_picker
     = (Raise (mk_exn TypeError "the arguments do not fit the parameters"),
        mk_state (modules example.st_picker) (heap example.st_picker)
          (plugins example.st_picker) [Log INFO "@ann -> !pick x"]).
Proof.
  split.
  - exact (handle_plugin_schedules_handler example.the_utils example.lookup
             call_generator example.clock
             "echo" ["!echo"; "hi"] ["!echo"; "hi"]
             (example.message "ann" "!echo hi") "plugins.echo" example.st_echo
             (mk_module (CmdList [example.bare example.echo]) None None)
             (example.bare example.echo) (example.bare example.echo) 0
             [PyStr "hi"] ∅
             eq_refl ltac:(discriminate) eq_refl eq_refl eq_refl).
  - exact (handle_plugin_schedules_handler example.the_utils example.lookup
             call_generator example.clock
             "pick" ["!pick"; "x"] ["!pick"; "x"]
             (example.message "ann" "!pick x") "plugins.picker"
             example.st_picker
             (mk_module (CmdList [example.bare example.pick])
                (Some example.greeter_hook) None)
             (example.bare example.pick) (example.bare example.pick) 0
             [] ∅
             eq_refl ltac:(discriminate) eq_refl eq_refl eq_refl).
Defined.

(** The binder marks [!pick x] complete without a value for the required
    keyword-only parameter [flag]; the handler is a generator function, so
    calling it with the bound arguments raises [TypeError], and the
    dispatch ends there: the message is logged, no task is scheduled, and
    the plugin's generic-message hook is not reached. *)
Example unfit_call_ends_dispatch :
  parse_command_args example.the_utils (example.bare example.pick)
    ["!pick"; "x"] 0 (example.message "ann" "!pick x")
  = Ok ([], ∅, true)
  /\ on_message example.the_utils example.lookup "bot" call_generator
       example.clock (example.message "ann" "!pick x") example.st_picker
     = (Raise (mk_exn TypeError "the arguments do not fit the parameters"),
        mk_state (modules example.st_picker) (heap example.st_picker)
          (plugins example.st_picker) [Log INFO "@ann -> !pick x"]).
Proof. split; reflexivity. Qed.

(** How calls bind: [echo] takes one argument after the client and the
    message, not more, and not by a keyword it does not have; [tag] takes
    any number, and its keyword-only [flag] has a default. *)
Example call_binding :
  fits (signature example.echo) 3 [] = true
  /\ fits (signature example.echo) 2 [] = false
  /\ fits (signature example.echo) 4 [] = false
  /\ fits (signature example.echo) 2 ["text"] = true
  /\ fits (signature example.echo) 3 ["text"] = false
  /\ fits (signature example.echo) 3 ["flag"] = false
  /\ fits (signature example.tag) 5 [] = true
  /\ fits (signature example.tag) 2 ["flag"] = true
  /\ fits (signature example.pick) 3 [] = false
  /\ fits (signature example.pick) 3 ["flag"] = true.
Proof. repeat split; reflexivity. Qed.
